(** * enhanced-ai-sdk: schema translation, hint building and the
      generation orchestrator, embedded and verified.

    The development follows the TypeScript sources:
    - [generate-object/zod-to-baml.ts]  (module [ZodToBaml]),
    - [generate-object/json-hint.ts]    (module [JsonHint]),
    - [generate-object/workspace.ts] and [generate-object.ts]
      (module [GenerateObject]).

    JavaScript strings are modelled by [string] (a sequence of bytes, read
    as the UTF-8 encoding of the JavaScript string); every character test
    the sources make is on ASCII characters, on which both views agree. *)

From Stdlib Require Import String Ascii List ZArith Lia Bool Arith PeanoNat.
From Stdlib Require Import DecimalString DecimalNat Decimal.
From Stdlib Require Finite.
Import ListNotations.
Local Open Scope list_scope.
Local Open Scope string_scope.
Set Warnings "-register-all".

(* ===================================================================== *)
(** ** JavaScript primitives used by the sources *)
(* ===================================================================== *)

Module Js.

(** [a ?? b] on a possibly-nullish value. *)
Definition coalesce {A} (a b : option A) : option A :=
  match a with Some x => Some x | None => b end.

Definition or_else {A} (a : option A) (d : A) : A :=
  match a with Some x => x | None => d end.

Definition nl : string := String "010"%char EmptyString.
Definition dquote : string := String "034"%char EmptyString.
Definition backslash : string := String "092"%char EmptyString.

(** [s.includes(c)] for a one-character needle. *)
Fixpoint includes (c : ascii) (s : string) : bool :=
  match s with
  | EmptyString => false
  | String d r => if Ascii.eqb c d then true else includes c r
  end.

(** [xs.join(sep)]. *)
Definition join (sep : string) (xs : list string) : string :=
  String.concat sep xs.

(** A string is truthy when it is not empty. *)
Definition truthy (s : string) : bool :=
  match s with EmptyString => false | _ => true end.

(** [String(n)] for a non-negative integer counter. *)
Definition of_nat (n : nat) : string :=
  NilEmpty.string_of_uint (Nat.to_uint n).

Definition is_upper (c : ascii) : bool :=
  let n := nat_of_ascii c in ((65 <=? n) && (n <=? 90))%nat.
Definition is_lower (c : ascii) : bool :=
  let n := nat_of_ascii c in ((97 <=? n) && (n <=? 122))%nat.
Definition is_digit (c : ascii) : bool :=
  let n := nat_of_ascii c in ((48 <=? n) && (n <=? 57))%nat.
Definition is_alpha (c : ascii) : bool := is_upper c || is_lower c.
Definition is_alnum (c : ascii) : bool := is_alpha c || is_digit c.

(** [c.toUpperCase()] on the characters it is applied to (ASCII
    letters and digits). *)
Definition to_upper (c : ascii) : ascii :=
  if is_lower c then ascii_of_nat (nat_of_ascii c - 32) else c.

Definition hex_digit (n : nat) : ascii :=
  nth n ["0"; "1"; "2"; "3"; "4"; "5"; "6"; "7"; "8"; "9";
         "a"; "b"; "c"; "d"; "e"; "f"]%char "0"%char.

(** One character of [JSON.stringify(s)] for a string [s]: the quote
    and the backslash are escaped, control characters below 0x20 get
    their short escape or [\u00XX], everything else is copied. *)
Definition json_escape (c : ascii) : string :=
  let n := nat_of_ascii c in
  if (n =? 34)%nat then backslash ++ dquote
  else if (n =? 92)%nat then backslash ++ backslash
  else if (n =? 8)%nat then backslash ++ "b"
  else if (n =? 9)%nat then backslash ++ "t"
  else if (n =? 10)%nat then backslash ++ "n"
  else if (n =? 12)%nat then backslash ++ "f"
  else if (n =? 13)%nat then backslash ++ "r"
  else if (n <? 32)%nat then
    backslash ++ "u00"
      ++ String (hex_digit (n / 16)) (String (hex_digit (n mod 16)) "")
  else String c "".

Fixpoint json_body (s : string) : string :=
  match s with
  | EmptyString => ""
  | String c r => json_escape c ++ json_body r
  end.

(** [JSON.stringify(s)] for a string [s]. *)
Definition json_string (s : string) : string :=
  dquote ++ json_body s ++ dquote.

End Js.

Notation "a ?? b" := (Js.coalesce a b) (at level 61, right associativity).

(* ===================================================================== *)
(** ** [Map]: keys in insertion order *)
(* ===================================================================== *)

(** A JavaScript [Map<string, V>]: [set] on a present key replaces the
  value where it stands, [set] on a new key adds it at the end, and
  [forEach] visits the entries in that order. *)
Module JsMap.

Definition t (V : Type) : Type := list (string * V).

Definition empty {V} : t V := [].

Fixpoint get {V} (k : string) (m : t V) : option V :=
  match m with
  | [] => None
  | (k', v) :: r => if String.eqb k k' then Some v else get k r
  end.

Definition has {V} (k : string) (m : t V) : bool :=
  match get k m with Some _ => true | None => false end.

Fixpoint set {V} (k : string) (v : V) (m : t V) : t V :=
  match m with
  | [] => [(k, v)]
  | (k', v') :: r =>
      if String.eqb k k' then (k', v) :: r else (k', v') :: set k v r
  end.

Definition keys {V} (m : t V) : list string := map fst m.

End JsMap.


(* ===================================================================== *)
(** ** Schema objects *)
(* ===================================================================== *)

(** The sources treat a schema as an untyped object and read a fixed set
    of properties of it and of its [_def].  A node of the model carries
    exactly those properties.  A property that the sources read as a
    schema holds a schema or is absent; a property that may be a function
    ([shape], [getter], the element of an array) is given by what the
    function returns.  Schema objects are finite: a [lazy] schema whose
    getter leads back to itself, on which the sources recurse until the
    call stack is exhausted, is not among them. *)
Module Zod.

(** [_def.value] of a literal node, by the observations the sources make
    of it: [typeof], [Number.isInteger] and [JSON.stringify].  A number
    carries the text [JSON.stringify] gives for it. *)
Inductive literal : Type :=
| LString (s : string)
| LNumber (isInteger : bool) (json : string)
| LBoolean (b : bool)
| LNull
| LUndefined
| LBigInt (n : Z).

(** A member of a TypeScript enum object. *)
Inductive member : Type :=
| MString (s : string)
| MNumber (n : Z).

(** What [_def.values] (or [options]) of an enum node may hold: an array
    of strings, or a plain object whose own properties are listed in
    [Object.values] order. *)
Inductive jsvalues : Type :=
| JArray (items : list string)
| JObject (entries : list (string * member)).

Inductive ZodType : Type :=
  Node {
    (** the kind [getKind] resolves for the node *)
    typeName : string;
    (** [s.description] *)
    description : option string;
    (** the schema-valued properties of [_def]: innerType, type, schema,
        out, in, output, element, items, item, itemType, keyType,
        valueType, and getter (by the schema it returns) *)
    refs : list (string * ZodType);
    (** [_def.shape] (or what [_def.shape()] returns), in [Object.keys]
        order *)
    shape : option (list (string * ZodType));
    (** [_def.options] read as the alternatives of a union *)
    options : option (list ZodType);
    (** the [kind] of each entry of [_def.checks] *)
    checks : list string;
    (** [_def.value] *)
    value : literal;
    (** [_def.values] *)
    values : option jsvalues;
    (** [_def.options] read as enum values *)
    def_options : option jsvalues;
    (** [s.options] *)
    self_options : option jsvalues
  }.

(** [def.p] for a schema-valued property [p]. *)
Fixpoint assoc (p : string) (l : list (string * ZodType)) : option ZodType :=
  match l with
  | [] => None
  | (q, s) :: r => if String.eqb p q then Some s else assoc p r
  end.

Definition prop (p : string) (s : ZodType) : option ZodType :=
  assoc p (refs s).

(** *** Size of a schema object *)

Definition max_of (l : list nat) : nat := fold_right Nat.max 0 l.

(** One more than the longest chain of properties below the node. *)
Fixpoint height (s : ZodType) : nat :=
  match s with
  | Node _ _ r sh os _ _ _ _ _ =>
      S (Nat.max
           (max_of (map (fun p => height (snd p)) r))
           (Nat.max
              (match sh with
               | Some l => max_of (map (fun p => height (snd p)) l)
               | None => 0
               end)
              (match os with
               | Some l => max_of (map height l)
               | None => 0
               end)))
  end.

(** A chain [a ?? b ?? ...] of properties of [s] yields a child of [s]. *)
Inductive from_props (s : ZodType) : option ZodType -> Prop :=
| from_prop p : from_props s (prop p s)
| from_coalesce a b : from_props s a -> from_props s b -> from_props s (a ?? b).

End Zod.

(** Constructors, as the zod library builds the nodes. *)
Module z.
Import Zod.

Definition node (k : string) (d : option string)
    (r : list (string * ZodType)) : ZodType :=
  Node k d r None None [] LUndefined None None None.

Definition string_ : ZodType := node "ZodString" None [].
Definition number : ZodType := node "ZodNumber" None [].
Definition int : ZodType :=
  Node "ZodNumber" None [] None None ["int"] LUndefined None None None.
Definition boolean : ZodType := node "ZodBoolean" None [].
Definition null : ZodType := node "ZodNull" None [].
Definition date : ZodType := node "ZodDate" None [].
Definition literal_ (v : literal) : ZodType :=
  Node "ZodLiteral" None [] None None [] v None None None.
Definition object (fields : list (string * ZodType)) : ZodType :=
  Node "ZodObject" None [] (Some fields) None [] LUndefined None None None.
Definition array (e : ZodType) : ZodType :=
  node "ZodArray" None [("type", e)].
(** [schema.min(n)] on an array adds a length constraint, which no
    function of the sources reads. *)
Definition min (n : nat) (s : ZodType) : ZodType := s.
Definition enum (vs : list string) : ZodType :=
  Node "ZodEnum" None [] None None [] LUndefined
       (Some (JArray vs)) None (Some (JArray vs)).
Definition nativeEnum (o : list (string * member)) : ZodType :=
  Node "ZodNativeEnum" None [] None None [] LUndefined
       (Some (JObject o)) None None.
Definition record (k v : ZodType) : ZodType :=
  node "ZodRecord" None [("keyType", k); ("valueType", v)].
Definition union (os : list ZodType) : ZodType :=
  Node "ZodUnion" None [] None (Some os) [] LUndefined None None None.
Definition lazy (s : ZodType) : ZodType :=
  node "ZodLazy" None [("getter", s)].
Definition optional (s : ZodType) : ZodType :=
  node "ZodOptional" (description s) [("innerType", s)].
Definition nullable (s : ZodType) : ZodType :=
  node "ZodNullable" (description s) [("innerType", s)].
Definition default (s : ZodType) : ZodType :=
  node "ZodDefault" (description s) [("innerType", s)].
Definition catch (s : ZodType) : ZodType :=
  node "ZodCatch" (description s) [("innerType", s)].
Definition readonly (s : ZodType) : ZodType :=
  node "ZodReadonly" None [("innerType", s)].
Definition brand (s : ZodType) : ZodType :=
  node "ZodBranded" (description s) [("type", s)].
Definition effects (s : ZodType) : ZodType :=
  node "ZodEffects" (description s) [("schema", s)].
Definition pipe (a b : ZodType) : ZodType :=
  node "ZodPipeline" None [("in", a); ("out", b)].
Definition describe (d : string) (s : ZodType) : ZodType :=
  Node (typeName s) (Some d) (refs s) (shape s) (options s) (checks s)
       (value s) (values s) (def_options s) (self_options s).

End z.

(** Chains of modifier wrappers. *)
Module Chain.
Import Zod.

(** The modifier wrappers, as zod builds them. *)
Inductive wrapper : Type :=
| Optional | Nullable | Default | Catch | Readonly | Branded | Effects
| Pipeline (input : ZodType).

Definition wrap (w : wrapper) (s : ZodType) : ZodType :=
  match w with
  | Optional => z.optional s
  | Nullable => z.nullable s
  | Default => z.default s
  | Catch => z.catch s
  | Readonly => z.readonly s
  | Branded => z.brand s
  | Effects => z.effects s
  | Pipeline input => z.pipe input s
  end.

(** [wrap_all [w1; ...; wn] s] is [s] under [n] wrappers, [w1] outermost. *)
Definition wrap_all (ws : list wrapper) (s : ZodType) : ZodType :=
  fold_right wrap s ws.

End Chain.

(* ===================================================================== *)
(** ** Exceptions *)
(* ===================================================================== *)

(** What a [throw] carries: an [Error] or a [TypeError] with its
    message, exhaustion of the call stack, or an opaque value thrown by
    a collaborator. *)
Inductive error : Type :=
| Error (message : string)
| TypeError (message : string)
| RangeError (message : string)
| Opaque (tag : string).

Inductive result (A : Type) : Type :=
| Ok (a : A)
| Throw (e : error).
Arguments Ok {A} a.
Arguments Throw {A} e.

(** The call stack was exhausted. *)
Definition overflows {A} (r : result A) : Prop :=
  exists m, r = Throw (RangeError m).

(* ===================================================================== *)
(** ** zod-to-baml.ts *)
(* ===================================================================== *)

Module Field.
Record t : Type := mk {
  name : string;
  type : string;
  optional : bool;
  description : option string }.
End Field.

Module ClassType.
Record t : Type := mk {
  name : string;
  fields : list Field.t }.
End ClassType.

Module ZodToBaml.
Import Zod.

Record Ctx : Type := mkCtx {
  types : JsMap.t ClassType.t;
  order : list string;
  enums : JsMap.t (list string);
  aliases : JsMap.t string;
  counter : nat }.

(** The translator mutates one [Ctx] and may throw; nothing in the
    sources catches, so a throw ends the run and the context is lost
    with it. *)
Definition M (A : Type) : Type := Ctx -> result (A * Ctx).

Definition ret {A} (a : A) : M A := fun ctx => Ok (a, ctx).
Definition throw {A} (e : error) : M A := fun _ => Throw e.
Definition bind {A B} (m : M A) (f : A -> M B) : M B :=
  fun ctx =>
    match m ctx with
    | Ok (a, ctx') => f a ctx'
    | Throw e => Throw e
    end.
Definition modify (f : Ctx -> Ctx) : M unit := fun ctx => Ok (tt, f ctx).

Notation "x <- m ;; k" := (bind m (fun x => k))
  (at level 100, m at next level, right associativity).
Notation "m ;;; k" := (bind m (fun _ => k))
  (at level 100, right associativity).

(** [getKind]: the sources find the kind by looking [_def.typeName] up
    in zod's table of first-party kinds, and otherwise by the class of
    the object; the node carries the kind so found. *)
Definition getKind (s : ZodType) : string := typeName s.

Record Unwrapped : Type := mkUnwrapped {
  base : ZodType;
  optional : bool;
  nullable : bool }.

(** The body of the [for (let i = 0; i < 50; i++)] loop of [unwrapAll],
    with [n] iterations left. *)
Fixpoint unwrap_loop (n : nat) (schema : ZodType) (optional nullable : bool)
  : Unwrapped :=
  match n with
  | O => mkUnwrapped schema optional nullable
  | S n' =>
      let k := getKind schema in
      if k =? "ZodOptional" then
        unwrap_loop n'
          (Js.or_else (prop "innerType" schema ?? prop "type" schema) schema)
          true nullable
      else if k =? "ZodNullable" then
        unwrap_loop n'
          (Js.or_else (prop "innerType" schema ?? prop "type" schema) schema)
          optional true
      else if (k =? "ZodDefault") || (k =? "ZodCatch") || (k =? "ZodReadonly")
      then
        unwrap_loop n'
          (Js.or_else (prop "innerType" schema ?? prop "type" schema) schema)
          optional nullable
      else if k =? "ZodBranded" then
        unwrap_loop n' (Js.or_else (prop "type" schema) schema)
          optional nullable
      else if k =? "ZodEffects" then
        unwrap_loop n' (Js.or_else (prop "schema" schema) schema)
          optional nullable
      else if k =? "ZodPipeline" then
        unwrap_loop n'
          (Js.or_else (prop "out" schema ?? prop "in" schema) schema)
          optional nullable
      else mkUnwrapped schema optional nullable
  end.

Definition unwrapAll (s : ZodType) : Unwrapped :=
  unwrap_loop 50 s false false.

Record Modifiers : Type := mkModifiers {
  m_base : ZodType;
  m_optional : bool;
  m_nullable : bool;
  m_description : option string }.

Definition unwrapModifiers (s : ZodType) : Modifiers :=
  let u := unwrapAll s in
  mkModifiers (base u) (optional u) (nullable u) (Zod.description s).

(** [s.replace(/[^a-zA-Z0-9]+/g, ' ')]; [run] tells that the previous
    character was already replaced. *)
Fixpoint replace_non_alnum (run : bool) (s : string) : string :=
  match s with
  | EmptyString => ""
  | String c r =>
      if Js.is_alnum c then String c (replace_non_alnum false r)
      else if run then replace_non_alnum true r
      else String " "%char (replace_non_alnum true r)
  end.

(** [s.split(' ')]. *)
Fixpoint split_space (s : string) : list string :=
  match s with
  | EmptyString => [""]
  | String c r =>
      if Ascii.eqb c " "%char then "" :: split_space r
      else match split_space r with
           | w :: ws => String c w :: ws
           | [] => [String c ""]
           end
  end.

(** [w[0].toUpperCase() + w.slice(1)] for a non-empty [w]. *)
Definition capitalize (w : string) : string :=
  match w with
  | EmptyString => ""
  | String c r => String (Js.to_upper c) r
  end.

Definition toPascal (s : string) : string :=
  Js.join "" (map capitalize
                (filter Js.truthy (split_space (replace_non_alnum false s)))).

(** [/^[A-Za-z_][A-Za-z0-9_]*$/.test(s)]. *)
Definition ident_start (c : ascii) : bool :=
  Js.is_alpha c || Ascii.eqb c "_"%char.
Definition ident_part (c : ascii) : bool :=
  Js.is_alnum c || Ascii.eqb c "_"%char.
Fixpoint all_chars (p : ascii -> bool) (s : string) : bool :=
  match s with
  | EmptyString => true
  | String c r => p c && all_chars p r
  end.
Definition isIdentifier (s : string) : bool :=
  match s with
  | EmptyString => false
  | String c r => ident_start c && all_chars ident_part r
  end.

Definition parenIfUnion (expr : string) : string :=
  if Js.includes "|"%char expr then "(" ++ expr ++ ")" else expr.

(** The loop [while (taken(name)) name = clean + ++ctx.counter].  Every
    round tries a new name, so the loop ends within as many rounds as
    there are taken names; [rounds] is that bound. *)
Fixpoint fresh_loop (taken : string -> bool) (clean : string) (rounds : nat)
    (name : string) (counter : nat) : string * nat :=
  if taken name then
    match rounds with
    | O => (name, counter)
    | S r =>
        fresh_loop taken clean r (clean ++ Js.of_nat (S counter)) (S counter)
    end
  else (name, counter).

Definition set_counter (c : nat) (ctx : Ctx) : Ctx :=
  mkCtx (types ctx) (order ctx) (enums ctx) (aliases ctx) c.

Definition uniqueClassName (base : string) : M string :=
  fun ctx =>
    let clean := toPascal base in
    let '(name, c) :=
      fresh_loop (fun n => JsMap.has n (types ctx)) clean
                 (length (types ctx)) clean (counter ctx) in
    Ok (name, set_counter c ctx).

Definition uniqueAliasOrEnumName (base : string) : M string :=
  fun ctx =>
    let clean := toPascal base in
    let '(name, c) :=
      fresh_loop (fun n => JsMap.has n (enums ctx) || JsMap.has n (aliases ctx))
                 clean (length (enums ctx) + length (aliases ctx))
                 clean (counter ctx) in
    Ok (name, set_counter c ctx).

(** [hintName || d]. *)
Definition hint_or (hintName : option string) (d : string) : string :=
  match hintName with
  | Some h => if Js.truthy h then h else d
  | None => d
  end.

(** [hintName ? hintName + suffix : undefined]. *)
Definition hint_plus (hintName : option string) (suffix : string)
  : option string :=
  match hintName with
  | Some h => if Js.truthy h then Some (h ++ suffix) else None
  | None => None
  end.

(** [Array.isArray(rawValues) ? rawValues : []] for
    [rawValues = def.values ?? def.options ?? base.options]. *)
Definition enum_values (base : ZodType) : list string :=
  match values base ?? def_options base ?? self_options base with
  | Some (JArray vs) => vs
  | _ => []
  end.

Definition object_values (v : jsvalues) : list member :=
  match v with
  | JArray items => map MString items
  | JObject entries => map snd entries
  end.

Fixpoint only_strings (l : list member) : list string :=
  match l with
  | [] => []
  | MString s :: r => s :: only_strings r
  | MNumber _ :: r => only_strings r
  end.

(** [Object.values(def.values ?? {}).filter(v => typeof v === 'string')]. *)
Definition native_enum_values (base : ZodType) : list string :=
  only_strings (match values base with
                | Some v => object_values v
                | None => []
                end).

Definition literal_type (v : literal) : string :=
  match v with
  | LString _ => "string"
  | LNumber isInteger _ => if isInteger then "int" else "float"
  | LBoolean _ => "bool"
  | _ => "string"
  end.

Definition set_class (name : string) (cls : ClassType.t) (ctx : Ctx) : Ctx :=
  mkCtx (JsMap.set name cls (types ctx)) (order ctx ++ [name])%list
        (enums ctx) (aliases ctx) (counter ctx).

Definition set_enum (name : string) (vs : list string) (ctx : Ctx) : Ctx :=
  mkCtx (types ctx) (order ctx) (JsMap.set name vs (enums ctx))
        (aliases ctx) (counter ctx).

Definition set_alias (name : string) (expr : string) (ctx : Ctx) : Ctx :=
  mkCtx (types ctx) (order ctx) (enums ctx)
        (JsMap.set name expr (aliases ctx)) (counter ctx).

(** [values.map((v) => JSON.stringify(v)).join(' | ')]. *)
Definition literal_union (vs : list string) : string :=
  Js.join " | " (map Js.json_string vs).

Section Translate.

(** The recursive calls of [toBamlType]. *)
Variable rec : ZodType -> option string -> M string.

(** The loop over [Object.keys(shapeObj)] of the object rule. *)
Fixpoint object_fields (name : string) (shapeObj : list (string * ZodType))
  : M (list Field.t) :=
  match shapeObj with
  | [] => ret []
  | (key, fieldSchema) :: rest =>
      let u := unwrapModifiers fieldSchema in
      innerType <- rec (m_base u) (Some (name ++ "_" ++ key)) ;;
      let type :=
        if m_nullable u then parenIfUnion innerType ++ " | null"
        else innerType in
      fields <- object_fields name rest ;;
      ret (Field.mk key type (m_optional u) (m_description u) :: fields)
  end.

(** [options.map((o, i) => toBamlType(o, ctx, ...))]. *)
Fixpoint union_parts (hintName : option string) (i : nat)
    (options : list ZodType) : M (list string) :=
  match options with
  | [] => ret []
  | o :: rest =>
      part <- rec o (hint_plus hintName ("U" ++ Js.of_nat i)) ;;
      parts <- union_parts hintName (S i) rest ;;
      ret (part :: parts)
  end.

Definition toBamlType_body (schema : ZodType) (hintName : option string)
  : M string :=
  let base := base (unwrapAll schema) in
  let k := getKind base in
  if k =? "ZodObject" then
    name <- uniqueClassName (hint_or hintName "Obj") ;;
    match shape base with
    | None => throw (TypeError "Cannot convert undefined or null to object")
    | Some shapeObj =>
        fields <- object_fields name shapeObj ;;
        modify (set_class name (ClassType.mk name fields)) ;;;
        ret name
    end
  else if k =? "ZodString" then ret "string"
  else if k =? "ZodNumber" then
    ret (if existsb (String.eqb "int") (checks base) then "int" else "float")
  else if k =? "ZodBoolean" then ret "bool"
  else if k =? "ZodLiteral" then ret (literal_type (value base))
  else if k =? "ZodNull" then ret "null"
  else if k =? "ZodArray" then
    let innerSchema :=
      prop "element" base ?? prop "type" base ?? prop "items" base
        ?? prop "item" base ?? prop "itemType" base in
    inner <- match innerSchema with
             | Some s => rec (ZodToBaml.base (unwrapAll s))
                             (hint_plus hintName "Item")
             | None => ret "string"
             end ;;
    ret (parenIfUnion inner ++ "[]")
  else if k =? "ZodEnum" then
    let values := enum_values base in
    match values with
    | [] => ret "string"
    | _ =>
        let idSafe := forallb isIdentifier values in
        name <- uniqueAliasOrEnumName (hint_or hintName "Enum") ;;
        if idSafe then modify (set_enum name values) ;;; ret name
        else modify (set_alias name (literal_union values)) ;;; ret name
    end
  else if k =? "ZodNativeEnum" then
    let values := native_enum_values base in
    name <- uniqueAliasOrEnumName (hint_or hintName "Enum") ;;
    let idSafe := forallb isIdentifier values in
    (if idSafe then modify (set_enum name values)
     else modify (set_alias name (literal_union values))) ;;;
    ret name
  else if k =? "ZodRecord" then
    let keyType := Js.or_else (prop "keyType" base) z.string_ in
    k' <- rec keyType (hint_plus hintName "Key") ;;
    v <- match prop "valueType" base with
         | Some valType => rec valType (hint_plus hintName "Val")
         | None =>
             throw (TypeError
               "Cannot read properties of undefined (reading '_def')")
         end ;;
    ret ("map<" ++ k' ++ ", " ++ v ++ ">")
  else if k =? "ZodUnion" then
    match options base with
    | None =>
        throw (TypeError
          "Cannot read properties of undefined (reading 'map')")
    | Some options =>
        parts <- union_parts hintName 0 options ;;
        ret (Js.join " | " parts)
    end
  else if k =? "ZodLazy" then
    match prop "getter" base with
    | None => throw (TypeError "getter is not a function")
    | Some s => rec s hintName
    end
  else
    match prop "innerType" base ?? prop "schema" base ?? prop "type" base
            ?? prop "out" base ?? prop "output" base with
    | Some inner => rec inner hintName
    | None => throw (Error ("Unsupported Zod type: " ++ k))
    end.

End Translate.

(** [toBamlType] with [depth] nested calls allowed: one more than that
    exhausts the call stack. *)
Fixpoint toBamlType_within (depth : nat) (schema : ZodType)
    (hintName : option string) : M string :=
  match depth with
  | O => throw (RangeError "Maximum call stack size exceeded")
  | S d => toBamlType_body (toBamlType_within d) schema hintName
  end.

(** A call nests no deeper than the schema object is high
    ([toBamlType_within_enough] below), so this is the function on every
    schema object. *)
Definition toBamlType (schema : ZodType) (hintName : option string)
  : M string :=
  toBamlType_within (S (height schema)) schema hintName.

(** *** Rendering *)

Definition render_enum (e : string * list string) : list string :=
  let '(name, values) := e in
  ("enum " ++ name ++ " {")
    :: List.app (map (fun v => "  " ++ v) values) ["}"].

Definition render_alias (a : string * string) : list string :=
  let '(name, expr) := a in ["type " ++ name ++ " = " ++ expr].

Definition render_field (f : Field.t) : string :=
  let desc :=
    match Field.description f with
    | Some d =>
        if Js.truthy d then " @description(" ++ Js.json_string d ++ ")"
        else ""
    | None => ""
    end in
  "  " ++ Field.name f ++ " " ++ Field.type f
       ++ (if Field.optional f then "?" else "") ++ desc.

Definition render_class (cls : ClassType.t) : list string :=
  ("class " ++ ClassType.name cls ++ " {")
    :: List.app (map render_field (ClassType.fields cls)) ["}"].

(** [ctx.order.forEach]: [ctx.types.get(name)!] is dereferenced. *)
Fixpoint render_classes (types : JsMap.t ClassType.t) (order : list string)
  : result (list string) :=
  match order with
  | [] => Ok []
  | name :: rest =>
      match JsMap.get name types with
      | None =>
          Throw (TypeError
            "Cannot read properties of undefined (reading 'name')")
      | Some cls =>
          match render_classes types rest with
          | Ok lines => Ok (render_class cls ++ lines)%list
          | Throw e => Throw e
          end
      end
  end.

Definition renderTypes (ctx : Ctx) : result string :=
  match render_classes (types ctx) (order ctx) with
  | Throw e => Throw e
  | Ok classes =>
      Ok (Js.join Js.nl
            (flat_map render_enum (enums ctx)
               ++ flat_map render_alias (aliases ctx) ++ classes)%list)
  end.

Record Baml : Type := mkBaml {
  bamlFile : string;
  funcName : string;
  rootType : string }.

Definition new_ctx : Ctx := mkCtx JsMap.empty [] JsMap.empty JsMap.empty 0.

Definition header : string :=
  "generator typescript {" ++ Js.nl
  ++ "  output_type " ++ Js.dquote ++ "typescript" ++ Js.dquote ++ Js.nl
  ++ "  module_format " ++ Js.dquote ++ "cjs" ++ Js.dquote ++ Js.nl
  ++ "}" ++ Js.nl.

Definition func (funcName rootType : string) : string :=
  "function " ++ funcName ++ "(input: string) -> " ++ rootType ++ " {"
  ++ Js.nl
  ++ "  client " ++ Js.dquote ++ "openai/gpt-5" ++ Js.dquote ++ Js.nl
  ++ "  prompt #" ++ Js.dquote ++ Js.nl
  ++ "    {{ input }}" ++ Js.nl
  ++ "    {{ ctx.output_format }}" ++ Js.nl
  ++ "  " ++ Js.dquote ++ "#" ++ Js.nl
  ++ "}" ++ Js.nl.

(** [buildBamlFromZod], for a given bound on the nesting of calls. *)
Definition buildBamlFromZod_with
    (translate : ZodType -> option string -> M string) (schema : ZodType)
  : result Baml :=
  let rootName := "Root" in
  match translate schema (Some rootName) new_ctx with
  | Throw e => Throw e
  | Ok (rootType, ctx) =>
      let funcName := "Gen" ++ rootName in
      match renderTypes ctx with
      | Throw e => Throw e
      | Ok types =>
          Ok (mkBaml (Js.join Js.nl [header; types; func funcName rootType])
                     funcName rootType)
      end
  end.

Definition buildBamlFromZod (schema : ZodType) : result Baml :=
  buildBamlFromZod_with toBamlType schema.

(** The kinds [unwrapAll] peels. *)
Definition is_wrapper (k : string) : bool :=
  (k =? "ZodOptional") || (k =? "ZodNullable") || (k =? "ZodDefault")
  || (k =? "ZodCatch") || (k =? "ZodReadonly") || (k =? "ZodBranded")
  || (k =? "ZodEffects") || (k =? "ZodPipeline").

(** The kinds [toBamlType] has a rule for. *)
Definition has_rule (k : string) : bool :=
  existsb (String.eqb k)
    ["ZodObject"; "ZodString"; "ZodNumber"; "ZodBoolean"; "ZodLiteral";
     "ZodNull"; "ZodArray"; "ZodEnum"; "ZodNativeEnum"; "ZodRecord";
     "ZodUnion"; "ZodLazy"].

End ZodToBaml.

(* ===================================================================== *)
(** ** json-hint.ts *)
(* ===================================================================== *)

(** A role-tagged message object; [rest] holds its other properties. *)
Module Message.
Record t : Type := mk {
  role : string;
  content : string;
  rest : list (string * string) }.
End Message.

Module JsonHint.
Import Zod.
Import ZodToBaml (getKind, unwrapAll, base, optional, enum_values,
                  native_enum_values, literal_union).

(** A value that is a string or [undefined]. *)
Definition jsstring : Type := option string.

(** [`${v}`]. *)
Definition template (v : jsstring) : string :=
  match v with Some s => s | None => "undefined" end.

(** The text [Array.prototype.join] uses for an element. *)
Definition join_item (v : jsstring) : string :=
  match v with Some s => s | None => "" end.

(** [JSON.stringify(val)] for the value of a literal node. *)
Definition json_literal (v : literal) : result jsstring :=
  match v with
  | LString s => Ok (Some (Js.json_string s))
  | LNumber _ json => Ok (Some json)
  | LBoolean b => Ok (Some (if b then "true" else "false"))
  | LNull => Ok (Some "null")
  | LUndefined => Ok None
  | LBigInt _ => Throw (TypeError "Do not know how to serialize a BigInt")
  end.

Definition undefined_def : error :=
  TypeError "Cannot read properties of undefined (reading '_def')".

Section Describe.

(** The recursive calls of [describeSchema]. *)
Variable rec : ZodType -> result jsstring.

(** [Object.keys(shapeObj).map((k) => ...)]. *)
Fixpoint describe_fields (shapeObj : list (string * ZodType))
  : result (list string) :=
  match shapeObj with
  | [] => Ok []
  | (k, field) :: more =>
      let u := unwrapAll field in
      match rec (base u) with
      | Throw e => Throw e
      | Ok d =>
          match describe_fields more with
          | Throw e => Throw e
          | Ok parts =>
              Ok ((k ++ (if optional u then "?" else "") ++ ": "
                     ++ template d) :: parts)
          end
      end
  end.

(** [options.map(describeSchema)]. *)
Fixpoint describe_options (options : list ZodType)
  : result (list jsstring) :=
  match options with
  | [] => Ok []
  | o :: more =>
      match rec o with
      | Throw e => Throw e
      | Ok d =>
          match describe_options more with
          | Throw e => Throw e
          | Ok ds => Ok (d :: ds)
          end
      end
  end.

(** [describeSchema(x)] for a possibly missing [x]. *)
Definition rec_at (x : option ZodType) : result jsstring :=
  match x with
  | Some s => rec s
  | None => Throw undefined_def
  end.

Definition describeSchema_body (s : ZodType) : result jsstring :=
  let base := base (unwrapAll s) in
  let k := getKind base in
  if k =? "ZodObject" then
    match shape base with
    | None => Throw (TypeError "Cannot convert undefined or null to object")
    | Some shapeObj =>
        match describe_fields shapeObj with
        | Throw e => Throw e
        | Ok parts => Ok (Some ("{ " ++ Js.join ", " parts ++ " }"))
        end
    end
  else if k =? "ZodString" then Ok (Some "string")
  else if k =? "ZodNumber" then Ok (Some "number")
  else if k =? "ZodBoolean" then Ok (Some "boolean")
  else if k =? "ZodArray" then
    let innerSchema :=
      prop "element" base ?? prop "type" base ?? prop "items" base
        ?? prop "item" base ?? prop "itemType" base in
    match rec_at (option_map (fun i => ZodToBaml.base (unwrapAll i))
                             innerSchema) with
    | Throw e => Throw e
    | Ok d => Ok (Some (template d ++ "[]"))
    end
  else if k =? "ZodEnum" then
    match enum_values base with
    | [] => Ok (Some "string")
    | values => Ok (Some (literal_union values))
    end
  else if k =? "ZodNativeEnum" then
    match native_enum_values base with
    | [] => Ok (Some "string")
    | values => Ok (Some (literal_union values))
    end
  else if k =? "ZodLiteral" then json_literal (value base)
  else if k =? "ZodUnion" then
    match options base with
    | None =>
        Throw (TypeError
          "Cannot read properties of undefined (reading 'map')")
    | Some options =>
        match describe_options options with
        | Throw e => Throw e
        | Ok ds => Ok (Some (Js.join " | " (map join_item ds)))
        end
    end
  else if k =? "ZodRecord" then
    match rec_at (prop "valueType" base) with
    | Throw e => Throw e
    | Ok d => Ok (Some ("{ [key: string]: " ++ template d ++ " }"))
    end
  else if k =? "ZodNullable" then
    match rec_at (prop "innerType" base) with
    | Throw e => Throw e
    | Ok d => Ok (Some (template d ++ " | null"))
    end
  else if k =? "ZodOptional" then rec_at (prop "innerType" base)
  else Ok (Some "unknown").

End Describe.

(** [describeSchema] with [depth] nested calls allowed. *)
Fixpoint describeSchema_within (depth : nat) (s : ZodType)
  : result jsstring :=
  match depth with
  | O => Throw (RangeError "Maximum call stack size exceeded")
  | S d => describeSchema_body (describeSchema_within d) s
  end.

Definition describeSchema (s : ZodType) : result jsstring :=
  describeSchema_within (S (height s)) s.

Definition buildJsonHint (schema : ZodType) : result string :=
  match describeSchema schema with
  | Throw e => Throw e
  | Ok d =>
      Ok ("You are to output ONLY valid JSON with no extra text. "
          ++ "The JSON must match the following structure: "
          ++ template d ++ ".")
  end.

Definition system (hint : string) : Message.t :=
  Message.mk "system" hint [].

Definition mergeJsonHintIntoMessages (hint : string)
    (messages : list Message.t) : list Message.t :=
  match messages with
  | [] => [system hint]
  | first :: others =>
      if Message.role first =? "system" then
        Message.mk (Message.role first)
                   (Message.content first ++ Js.nl ++ Js.nl ++ hint)
                   (Message.rest first)
          :: others
      else system hint :: messages
  end.

(** The kinds [describeSchema] has a rule for. *)
Definition described (k : string) : bool :=
  existsb (String.eqb k)
    ["ZodObject"; "ZodString"; "ZodNumber"; "ZodBoolean"; "ZodArray";
     "ZodEnum"; "ZodNativeEnum"; "ZodLiteral"; "ZodUnion"; "ZodRecord";
     "ZodNullable"; "ZodOptional"].

End JsonHint.

(* ===================================================================== *)
(** ** [createHash('sha256').update(text).digest('hex')] *)
(* ===================================================================== *)

(** SHA-256 (FIPS 180-4) over the bytes of the text; 32-bit words are
    integers reduced modulo 2^32. *)
Module Sha256.
Local Open Scope Z_scope.

Definition add (x y : Z) : Z := (x + y) mod 2 ^ 32.
Definition rotr (n x : Z) : Z :=
  (Z.lor (Z.shiftr x n) (Z.shiftl x (32 - n))) mod 2 ^ 32.
Definition shr (n x : Z) : Z := Z.shiftr x n.
Definition xor3 (x y z : Z) : Z := Z.lxor (Z.lxor x y) z.

Definition Ch (x y z : Z) : Z :=
  Z.lxor (Z.land x y) (Z.land (Z.lxor x 0xffffffff) z).
Definition Maj (x y z : Z) : Z :=
  xor3 (Z.land x y) (Z.land x z) (Z.land y z).
Definition Sigma0 (x : Z) : Z := xor3 (rotr 2 x) (rotr 13 x) (rotr 22 x).
Definition Sigma1 (x : Z) : Z := xor3 (rotr 6 x) (rotr 11 x) (rotr 25 x).
Definition sigma0 (x : Z) : Z := xor3 (rotr 7 x) (rotr 18 x) (shr 3 x).
Definition sigma1 (x : Z) : Z := xor3 (rotr 17 x) (rotr 19 x) (shr 10 x).

(** The first sixty-four primes. *)
Definition is_prime (p : nat) : bool :=
  forallb (fun d => negb (p mod d =? 0)%nat) (seq 2 (p - 2)).
Definition primes : list Z :=
  Eval vm_compute in map Z.of_nat (filter is_prime (seq 2 310)).

(** The integer cube root, found bit by bit from bit [bits - 1] down. *)
Fixpoint cbrt_bits (bits : nat) (x r : Z) : Z :=
  match bits with
  | O => r
  | S b =>
      let c := r + 2 ^ Z.of_nat b in
      cbrt_bits b x (if c * c * c <=? x then c else r)
  end.
Definition cbrt (x : Z) : Z := cbrt_bits 40 x 0.

(** The round constants: the first 32 bits of the fractional parts of
    the cube roots of the first sixty-four primes. *)
Definition K : list Z :=
  Eval vm_compute in map (fun p => cbrt (p * 2 ^ 96) mod 2 ^ 32) primes.

(** The initial hash value: the first 32 bits of the fractional parts
    of the square roots of the first eight primes. *)
Definition H0 : list Z :=
  Eval vm_compute in
    map (fun p => Z.sqrt (p * 2 ^ 64) mod 2 ^ 32) (firstn 8 primes).

(** The message followed by the bit 1, zero bytes up to 56 modulo 64,
    and the length in bits on eight bytes. *)
Definition pad (msg : list Z) : list Z :=
  let len := Z.of_nat (length msg) in
  let zeros := Z.to_nat ((55 - len) mod 64) in
  let bits := 8 * len in
  (msg ++ 0x80 :: repeat 0 zeros
       ++ map (fun i => (bits / 2 ^ (8 * (7 - Z.of_nat i))) mod 256)
              (seq 0 8))%list.

(** Big-endian 32-bit words of a byte sequence. *)
Fixpoint words (fuel : nat) (bytes : list Z) : list Z :=
  match fuel, bytes with
  | S f, b0 :: b1 :: b2 :: b3 :: r =>
      (((b0 * 256 + b1) * 256 + b2) * 256 + b3) :: words f r
  | _, _ => []
  end.

(** Blocks of sixteen words. *)
Fixpoint blocks (fuel : nat) (ws : list Z) : list (list Z) :=
  match fuel, ws with
  | S f, _ :: _ => firstn 16 ws :: blocks f (skipn 16 ws)
  | _, _ => []
  end.

(** The message schedule, latest word first: [n] more words are added
    to [w]. *)
Fixpoint schedule (n : nat) (w : list Z) : list Z :=
  match n with
  | O => w
  | S n' =>
      schedule n'
        (add (add (sigma1 (nth 1 w 0)) (nth 6 w 0))
             (add (sigma0 (nth 14 w 0)) (nth 15 w 0)) :: w)
  end.

Definition round (s : list Z) (kw : Z * Z) : list Z :=
  match s with
  | [a; b; c; d; e; f; g; h] =>
      let t1 := add (add (add h (Sigma1 e)) (add (Ch e f g) (fst kw)))
                    (snd kw) in
      let t2 := add (Sigma0 a) (Maj a b c) in
      [add t1 t2; a; b; c; add d t1; e; f; g]
  | _ => s
  end.

Definition compress (h : list Z) (block : list Z) : list Z :=
  let w := List.rev (schedule 48 (List.rev block)) in
  map (fun p => add (fst p) (snd p))
      (combine h (fold_left round (combine K w) h)).

(** The digest as one 256-bit integer. *)
Definition digest (msg : list Z) : Z :=
  let ws := words (length msg + 72) (pad msg) in
  fold_left (fun acc w => acc * 2 ^ 32 + w)
            (fold_left compress (blocks (length ws) ws) H0) 0.

Definition bytes (text : string) : list Z :=
  map (fun c => Z.of_nat (nat_of_ascii c)) (list_ascii_of_string text).

(** The last [n] hexadecimal digits of [x], most significant first. *)
Fixpoint hex (n : nat) (x : Z) : string :=
  match n with
  | O => ""
  | S n' =>
      (hex n' (x / 16)
         ++ String (Js.hex_digit (Z.to_nat (x mod 16))) "")%string
  end.

Definition sha256_hex (text : string) : string :=
  hex 64 (digest (bytes text)).

End Sha256.

(* ===================================================================== *)
(** ** workspace.ts and generate-object.ts *)
(* ===================================================================== *)

Module GenerateObject.
Import Zod ZodToBaml JsonHint.

Record Options : Type := mkOptions {
  model : string;
  schema : option ZodType;
  prompt : option string;
  messages : option (list Message.t);
  maxTokens : option string;
  temperature : option string;
  topP : option string }.

(** The argument of one [generateText] call. *)
Record Request : Type := mkRequest {
  req_model : string;
  req_prompt : option string;
  req_messages : option (list Message.t);
  req_maxTokens : option string;
  req_temperature : option string;
  req_topP : option string }.

(** What [generateText] resolves to, by the properties read of it. *)
Record TextResult : Type := mkTextResult {
  text : option string;
  output_text : option string;
  usage : option string;
  finishReason : option string }.

Record GenerateObjectCompatResult : Type := mkResult {
  res_object : string;
  res_text : string;
  res_usage : option string;
  res_finishReason : option string }.

(** The loaded client: [parse[funcName]], when present, is a function
    from the raw text to the parsed value or a thrown error. *)
Record Client : Type := mkClient {
  parse : string -> option (string -> result string) }.

(** The collaborators: the temporary directory of the host, the
    compile-and-load step, and the text-generation service, whose answer
    may depend on how many calls came before. *)
Record Env : Type := mkEnv {
  tmpdir : string;
  buildAndLoadBamlClient : string -> result Client;
  generateText : nat -> Request -> result TextResult }.

(** What a run leaves behind: files and directories written, the
    requests sent, the delays awaited, and the texts handed to the
    parser. *)
Record World : Type := mkWorld {
  files : JsMap.t string;
  dirs : list string;
  requests : list Request;
  sleeps : list nat;
  parsed : list (string * string) }.

Definition IO (A : Type) : Type := World -> result A * World.

Definition io_ret {A} (a : A) : IO A := fun w => (Ok a, w).
Definition io_throw {A} (e : error) : IO A := fun w => (Throw e, w).
Definition io_bind {A B} (m : IO A) (f : A -> IO B) : IO B :=
  fun w =>
    match m w with
    | (Ok a, w') => f a w'
    | (Throw e, w') => (Throw e, w')
    end.
Definition lift {A} (r : result A) : IO A := fun w => (r, w).

Notation "x <~ m ;; k" := (io_bind m (fun x => k))
  (at level 100, m at next level, right associativity).

(** [resolve(dir, name)] for an absolute [dir] and a plain [name]. *)
Definition resolve (dir name : string) : string := dir ++ "/" ++ name.

Definition prepareWorkspace (tmp key bamlFile : string) : IO string :=
  fun w =>
    let base := resolve tmp "baml-runtime-cache" in
    let dir := resolve base key in
    let srcDir := resolve dir "baml_src" in
    let dirs' :=
      if existsb (String.eqb srcDir) (dirs w) then dirs w
      else (dirs w ++ [srcDir])%list in
    (Ok dir,
     mkWorld (JsMap.set (resolve srcDir "schema.baml") bamlFile (files w))
             dirs' (requests w) (sleeps w) (parsed w)).

Definition cacheKey (bamlFile : string) : string :=
  Sha256.sha256_hex bamlFile.

Definition attempts : nat := 3.

Definition send (req : Request) (w : World) : World :=
  mkWorld (files w) (dirs w) (requests w ++ [req])%list (sleeps w) (parsed w).

Definition sleep (ms : nat) (w : World) : World :=
  mkWorld (files w) (dirs w) (requests w) (sleeps w ++ [ms])%list (parsed w).

Definition parsing (funcName text : string) (w : World) : World :=
  mkWorld (files w) (dirs w) (requests w) (sleeps w)
          (parsed w ++ [(funcName, text)])%list.

Section Run.

Variable env : Env.

(** The retry loop [for (let i = 0; i < attempts; i++)], at index [i]
    with [todo = attempts - i] rounds left; the result is [textRes]. *)
Fixpoint attempt (todo i : nat) (req : Request) : IO (option TextResult) :=
  match todo with
  | O => io_ret None
  | S todo' =>
      fun w =>
        match generateText env (length (requests w)) req with
        | Ok r => (Ok (Some r), send req w)
        | Throw err =>
            if (i =? attempts - 1)%nat then (Throw err, send req w)
            else attempt todo' (S i) req (sleep (250 * (i + 1)) (send req w))
        end
  end.

Definition request (opts : Options) (jsonHint : string) : Request :=
  mkRequest (model opts)
    (match prompt opts with
     | Some p =>
         if Js.truthy p then Some (jsonHint ++ Js.nl ++ Js.nl ++ p) else None
     | None => None
     end)
    (match messages opts with
     | Some ms => Some (mergeJsonHintIntoMessages jsonHint ms)
     | None => None
     end)
    (maxTokens opts) (temperature opts) (topP opts).

(** The statements after the retry loop. *)
Definition finish (client : Client) (funcName : string)
    (textRes : option TextResult) : IO GenerateObjectCompatResult :=
  match textRes with
  | None =>
      io_throw (TypeError
        "Cannot read properties of undefined (reading 'text')")
  | Some r =>
      let text := Js.or_else (text r ?? output_text r) "" in
      if negb (Js.truthy text) then
        io_throw (Error "generateText returned empty text")
      else
        match parse client funcName with
        | None => io_throw (TypeError "client.parse[funcName] is not a function")
        | Some p =>
            fun w =>
              match p text with
              | Throw e => (Throw e, parsing funcName text w)
              | Ok object =>
                  (Ok (mkResult object text (usage r) (finishReason r)),
                   parsing funcName text w)
              end
        end
  end.

Definition generateObjectCompat (opts : Options)
  : IO GenerateObjectCompatResult :=
  match schema opts with
  | None => io_throw (Error "schema is required")
  | Some schema =>
      b <~ lift (buildBamlFromZod schema) ;;
      workspace <~ prepareWorkspace (tmpdir env) (cacheKey (bamlFile b))
                                    (bamlFile b) ;;
      client <~ lift (buildAndLoadBamlClient env workspace) ;;
      jsonHint <~ lift (buildJsonHint schema) ;;
      textRes <~ attempt attempts 0 (request opts jsonHint) ;;
      finish client (funcName b) textRes
  end.

End Run.

Definition new_world : World := mkWorld JsMap.empty [] [] [] [].

(** The world once [prepareWorkspace] has written the source text. *)
Definition prepared (env : Env) (b : Baml) (w : World) : World :=
  snd (prepareWorkspace (tmpdir env) (cacheKey (bamlFile b)) (bamlFile b) w).

(** The directory [prepareWorkspace] returns. *)
Definition workspace (env : Env) (b : Baml) : string :=
  resolve (resolve (tmpdir env) "baml-runtime-cache") (cacheKey (bamlFile b)).

(** The world after [k] failed attempts, each but the last followed by
    its delay: attempt [i] (from 0) is followed by [250 * (i + 1)] ms. *)
Fixpoint failed (k : nat) (req : Request) (w : World) : World :=
  match k with
  | O => w
  | S k' => sleep (250 * k) (send req (failed k' req w))
  end.

(** The text of an answer is unusable when both [text] and
    [output_text] are absent or empty. *)
Definition unusable (r : TextResult) : Prop :=
  (text r = None \/ text r = Some "")
  /\ (output_text r = None \/ output_text r = Some "").


End GenerateObject.

(* ===================================================================== *)
(** ** Sample schemas and collaborators *)
(* ===================================================================== *)

Module Samples.
Import Zod ZodToBaml JsonHint GenerateObject.

(** The schema of the round-trip property:
    [{ id: z.number().int(), rating: z.number(), isActive: z.boolean(),
       tags: z.array(z.string()).min(1), maybe: z.string().optional(),
       nick: z.string().nullable() }]. *)
Definition mixed : ZodType :=
  z.object [ ("id", z.int); ("rating", z.number); ("isActive", z.boolean);
             ("tags", z.min 1 (z.array z.string_));
             ("maybe", z.optional z.string_);
             ("nick", z.nullable z.string_) ].

Definition mixed_fields : list Field.t :=
  [ Field.mk "id" "int" false None;
    Field.mk "rating" "float" false None;
    Field.mk "isActive" "bool" false None;
    Field.mk "tags" "string[]" false None;
    Field.mk "maybe" "string" true None;
    Field.mk "nick" "string | null" false None ].


(** The schema [z.object({ n: z.literal(1n), when: z.date() })]. *)
Definition bigint_and_date : ZodType :=
  z.object [("n", z.literal_ (LBigInt 1)); ("when", z.date)].

(** The schema of the README: [z.object({ name: z.string(), color:
    z.string() })]. *)
Definition fruit : ZodType :=
  z.object [("name", z.string_); ("color", z.string_)].

Definition fruit_opts : Options :=
  mkOptions "gpt-4o-mini" (Some fruit) (Some "Generate a fruit.")
            None None None None.

Definition fruit_baml : Baml :=
  Eval vm_compute in
    match buildBamlFromZod fruit with
    | Ok b => b
    | Throw _ => mkBaml "" "" ""
    end.

Definition fruit_hint : string :=
  Eval vm_compute in
    match buildJsonHint fruit with
    | Ok h => h
    | Throw _ => ""
    end.

(** A client whose [GenRoot] parser accepts every text as it is. *)
Definition echo_client : Client :=
  mkClient (fun f => if f =? "GenRoot" then Some (fun t => Ok t) else None).

(** Collaborators whose [n]-th text-generation call gives [answers n]. *)
Definition scripted (answers : nat -> result TextResult) : Env :=
  mkEnv "/tmp" (fun _ => Ok echo_client) (fun n _ => answers n).

Definition apple : TextResult :=
  mkTextResult (Some "{ name: apple, color: red }") None None (Some "stop").

Definition nothing : TextResult := mkTextResult None (Some "") None None.

Definition timeout (n : nat) : error := Opaque ("timeout " ++ Js.of_nat n).






End Samples.

(* ===================================================================== *)
(** ** What a translation leaves in the context *)
(* ===================================================================== *)

Module Growth.
Import Zod ZodToBaml.

(** Letters and digits only. *)
Definition alnum (s : string) : bool := all_chars Js.is_alnum s.

(** No control character (so no line break). *)
Definition printable (s : string) : bool :=
  all_chars (fun c => (32 <=? nat_of_ascii c)%nat) s.

(** The ways [toBamlType] changes the context: the counter goes up
    ([uniqueClassName], [uniqueAliasOrEnumName]); a class is set under
    its name and the name is pushed on the order; an enum, or an alias,
    is set under a name that neither names an enum nor an alias. *)
Inductive grows : Ctx -> Ctx -> Prop :=
| grows_refl ctx : grows ctx ctx
| grows_trans a b c : grows a b -> grows b c -> grows a c
| grows_counter ctx c :
    counter ctx <= c -> grows ctx (set_counter c ctx)
| grows_class ctx name fields :
    alnum name = true ->
    Forall (fun f => printable (Field.type f) = true) fields ->
    grows ctx (set_class name (ClassType.mk name fields) ctx)
| grows_enum ctx name vs :
    alnum name = true ->
    JsMap.has name (enums ctx) = false ->
    JsMap.has name (aliases ctx) = false ->
    forallb isIdentifier vs = true ->
    grows ctx (set_enum name vs ctx)
| grows_alias ctx name vs :
    alnum name = true ->
    JsMap.has name (enums ctx) = false ->
    JsMap.has name (aliases ctx) = false ->
    grows ctx (set_alias name (literal_union vs) ctx).

(** What holds of every context a translation started from [new_ctx]
    goes through. *)
Record tidy (ctx : Ctx) : Prop := mkTidy {
  (** every name of the order names a class *)
  tidy_order : forall n, In n (order ctx) -> JsMap.has n (types ctx) = true;
  (** a class is kept under its own name, which is alphanumeric, and
      the types of its fields have no control character *)
  tidy_types :
    Forall (fun e => ClassType.name (snd e) = fst e
                     /\ alnum (fst e) = true
                     /\ Forall (fun f => printable (Field.type f) = true)
                               (ClassType.fields (snd e)))
           (types ctx);
  (** the values of an enum are identifiers; its name is alphanumeric *)
  tidy_enums :
    Forall (fun e => alnum (fst e) = true
                     /\ forallb isIdentifier (snd e) = true)
           (enums ctx);
  (** an alias has an alphanumeric name and an expression without
      control character *)
  tidy_aliases :
    Forall (fun e => alnum (fst e) = true /\ printable (snd e) = true)
           (aliases ctx);
  (** no name is declared twice among enums and aliases *)
  tidy_names : NoDup (JsMap.keys (enums ctx) ++ JsMap.keys (aliases ctx))%list
}.

(** A translator whose successful calls grow the context and return a
    type expression without control character. *)
Definition sound (rec : ZodType -> option string -> M string) : Prop :=
  forall c h ctx r ctx',
    rec c h ctx = Ok (r, ctx') -> grows ctx ctx' /\ printable r = true.

End Growth.

(** What the rendered declarations are checked for. *)
Module Lines.
Import Zod ZodToBaml Growth.

(** A rendered line holds no control character, unless it is the line
    of a field whose key holds one. *)
Definition clean (line : string) : Prop :=
  printable line = true
  \/ exists f, line = render_field f /\ printable (Field.name f) = false.

End Lines.

(** Which wrappers set a flag of [unwrapAll]. *)
Module Flags.
Import Chain.

Definition is_optional (w : wrapper) : bool :=
  match w with Optional => true | _ => false end.

Definition is_nullable (w : wrapper) : bool :=
  match w with Nullable => true | _ => false end.

End Flags.

(** What the object rule makes of one entry of the shape. *)
Module ObjectRule.
Import Zod ZodToBaml.


(** No letter and no digit. *)
Definition no_alnum (s : string) : bool :=
  all_chars (fun c => negb (Js.is_alnum c)) s.

End ObjectRule.

(** Schemas on which every node is one the sources can handle. *)
Module Support.
Import Zod ZodToBaml.










End Support.

(** What a run leaves behind, and a run that succeeds. *)
Module Footprint.
Import Zod ZodToBaml JsonHint GenerateObject Samples.

(** The delays awaited after [k] failed attempts. *)
Definition delays (k : nat) : list nat :=
  map (fun i => 250 * (i + 1)) (seq 0 k).

(** The file [prepareWorkspace] writes for a rendered source text. *)
Definition schema_path (env : Env) (b : Baml) : string :=
  resolve (resolve (workspace env b) "baml_src") "schema.baml".

(** A service that answers every call with [apple]. *)
Definition obliging : Env := scripted (fun _ => Ok apple).

Definition fruit_result : GenerateObjectCompatResult :=
  Eval vm_compute in
    match fst (generateObjectCompat obliging fruit_opts new_world) with
    | Ok r => r
    | Throw _ => mkResult "" "" None None
    end.

Definition fruit_world : World :=
  Eval vm_compute in snd (generateObjectCompat obliging fruit_opts new_world).

End Footprint.

(** The cache of workspaces. *)
Module Cache.
Import GenerateObject.

(** The source file of the workspace of a key. *)
Definition text_path (tmp key : string) : string :=
  resolve (resolve (resolve (resolve tmp "baml-runtime-cache") key)
                   "baml_src")
          "schema.baml".

(** A digit or a letter from [a] to [f]. *)
Definition is_hex (c : ascii) : bool :=
  let n := nat_of_ascii c in
  Js.is_digit c || ((97 <=? n) && (n <=? 102))%nat.

(** Every workspace that holds a source text holds one of its own key. *)
Definition consistent (tmp : string) (w : World) : Prop :=
  forall text found,
    JsMap.get (text_path tmp (cacheKey text)) (files w) = Some found ->
    cacheKey found = cacheKey text.

End Cache.

(* ===================================================================== *)
(** ** exec.ts: the filter on the standard error of the child process *)
(* ===================================================================== *)

(** [execFile] starts the child with the default encoding, so the
    [data] events of its standard error carry strings; the handler
    keeps the last, unfinished line in [stderrBuf], and the [close]
    handler flushes it.  A run is the list of the chunks received,
    followed by [close]; what is modelled of [process.stderr] is the
    list of the strings written to it. *)
Module Exec.

Definition is_nl (c : ascii) : bool := Ascii.eqb c "010"%char.
Definition is_cr (c : ascii) : bool := Ascii.eqb c "013"%char.

(** The character [c] goes in front of the first piece. *)
Definition cons_char (c : ascii) (pieces : list string) : list string :=
  match pieces with
  | w :: ws => String c w :: ws
  | [] => [String c ""]
  end.

(** [s.split(/\r?\n/)]: a separator is a line feed, together with the
    carriage return right before it when there is one. *)
Fixpoint split_lines (s : string) : list string :=
  match s with
  | EmptyString => [""]
  | String c r =>
      if is_nl c then "" :: split_lines r
      else
        match r with
        | String d r' =>
            if is_cr c && is_nl d then "" :: split_lines r'
            else cons_char c (split_lines r)
        | EmptyString => cons_char c (split_lines r)
        end
  end.

Definition to_lower (c : ascii) : ascii :=
  if Js.is_upper c then ascii_of_nat (nat_of_ascii c + 32) else c.

(** The pattern matches at the start of [s], letters compared without
    regard to case. *)
Fixpoint prefix_ci (pattern s : string) : bool :=
  match pattern, s with
  | EmptyString, _ => true
  | String a p, String b r =>
      Ascii.eqb (to_lower a) (to_lower b) && prefix_ci p r
  | String _ _, EmptyString => false
  end.

Fixpoint contains_ci (pattern s : string) : bool :=
  prefix_ci pattern s
  || match s with
     | EmptyString => false
     | String _ r => contains_ci pattern r
     end.

(** [NOISY_NPM_404.test(line)] for [/\/@boundaryml%2fbaml-/i]. *)
Definition NOISY_NPM_404 (line : string) : bool :=
  contains_ci "/@boundaryml%2fbaml-" line.

Record State : Type := mkState {
  stderrBuf : string;
  (** the strings written to [process.stderr] so far *)
  written : list string }.

Definition start : State := mkState "" [].

(** The loop [for (const line of lines)]: the writes it makes. *)
Definition emit (lines : list string) : list string :=
  map (fun line => line ++ Js.nl)
      (filter (fun line => negb (NOISY_NPM_404 line)) lines).

(** The handler of [data] on the standard error of the child;
    [lines.pop()] takes the last piece off [lines]. *)
Definition on_data (st : State) (chunk : string) : State :=
  let buf := stderrBuf st ++ chunk in
  let lines := split_lines buf in
  let rest := last lines "" in
  mkState rest (List.app (written st) (emit (removelast lines))).

(** The handler of [close]. *)
Definition on_close (st : State) : list string :=
  if Js.truthy (stderrBuf st) && negb (NOISY_NPM_404 (stderrBuf st))
  then (written st ++ [stderrBuf st])%list
  else written st.

(** The state once the text [t] has come in: the unfinished line is
    kept, the finished ones have been dealt with. *)
Definition state_after (t : string) : State :=
  mkState (last (split_lines t) "") (emit (removelast (split_lines t))).

(** What is written for the chunks of one run. *)
Definition stderr_of (chunks : list string) : list string :=
  on_close (fold_left on_data chunks start).

End Exec.

(* ===================================================================== *)
(** ** workspace.ts: [findBinUp] *)
(* ===================================================================== *)

(** Directories are absolute, normalised paths, given by their
    segments from the root (the root has none); [binName] is a plain
    file name; the file system is what [existsSync] answers during the
    call. *)
Module FindBin.

Definition Path : Type := list string.

(** [resolve(dir, '..')]: the root is its own parent. *)
Definition parent (dir : Path) : Path := removelast dir.

(** [resolve(dir, 'node_modules', '.bin', binName)]. *)
Definition candidate (dir : Path) (binName : string) : Path :=
  (dir ++ ["node_modules"; ".bin"; binName])%list.

(** The loop [for (let i = 0; i < 8; i++)], with [todo] rounds left. *)
Fixpoint findBinUp_loop (existsSync : Path -> bool) (todo : nat)
    (dir : Path) (binName : string) : option Path :=
  match todo with
  | O => None
  | S todo' =>
      if existsSync (candidate dir binName) then Some (candidate dir binName)
      else if list_eq_dec string_dec (parent dir) dir then None
      else findBinUp_loop existsSync todo' (parent dir) binName
  end.

Definition findBinUp (existsSync : Path -> bool) (startDir : Path)
    (binName : string) : option Path :=
  findBinUp_loop existsSync 8 startDir binName.

(** The directory [k] levels above [dir]. *)
Definition ancestor (k : nat) (dir : Path) : Path := Nat.iter k parent dir.

End FindBin.

(* ===================================================================== *)
(** * Properties *)
(* ===================================================================== *)

(** ** Schema objects: children are lower than their parent *)

Module ZodFacts.
Import Zod.

Lemma max_of_ge (l : list nat) (n : nat) : In n l -> n <= max_of l.
Proof.
  induction l as [|m l IH]; simpl; [tauto|].
  intros [->|H]; [lia|]. specialize (IH H). lia.
Qed.

Lemma height_pos (s : ZodType) : 1 <= height s.
Proof. destruct s; simpl; lia. Qed.

Lemma assoc_In (p : string) (l : list (string * ZodType)) (c : ZodType) :
  assoc p l = Some c -> exists q, In (q, c) l.
Proof.
  induction l as [|[q s] l IH]; simpl; [discriminate|].
  destruct (String.eqb p q).
  - intros [= ->]. eauto.
  - intros H. destruct (IH H) as [q' Hq]. eauto.
Qed.

Lemma pairs_height (l : list (string * ZodType)) (k : string) (c : ZodType) :
  In (k, c) l -> height c <= max_of (map (fun p => height (snd p)) l).
Proof.
  intros H. apply max_of_ge.
  change (height c) with ((fun p : string * ZodType => height (snd p)) (k, c)).
  now apply in_map.
Qed.

Lemma height_prop (p : string) (s c : ZodType) :
  prop p s = Some c -> height c < height s.
Proof.
  unfold prop. intros H. apply assoc_In in H as [q Hq].
  destruct s as [tn d r sh os ck v vs dopt sopt]. simpl in *.
  pose proof (pairs_height _ _ _ Hq). lia.
Qed.

Lemma height_shape (s : ZodType) (l : list (string * ZodType))
    (k : string) (c : ZodType) :
  shape s = Some l -> In (k, c) l -> height c < height s.
Proof.
  destruct s as [tn d r sh os ck v vs dopt sopt]. simpl.
  intros -> Hin. pose proof (pairs_height _ _ _ Hin). lia.
Qed.

Lemma height_options (s : ZodType) (l : list ZodType) (c : ZodType) :
  options s = Some l -> In c l -> height c < height s.
Proof.
  destruct s as [tn d r sh os ck v vs dopt sopt]. simpl.
  intros -> Hin.
  assert (height c <= max_of (map height l))
    by (apply max_of_ge; now apply in_map).
  lia.
Qed.

Lemma from_props_height (s : ZodType) (o : option ZodType) (c : ZodType) :
  from_props s o -> o = Some c -> height c < height s.
Proof.
  induction 1 as [p|a b Ha IHa Hb IHb]; intros Hc.
  - eapply height_prop; eauto.
  - destruct a; simpl in Hc; auto.
Qed.

Lemma or_else_height (s : ZodType) (o : option ZodType) :
  from_props s o -> height (Js.or_else o s) <= height s.
Proof.
  intros H. destruct o as [c|] eqn:E; simpl; [|lia].
  pose proof (from_props_height s _ c H eq_refl). lia.
Qed.

End ZodFacts.

Create HintDb zod.
#[export] Hint Constructors Zod.from_props : zod.

(* ===================================================================== *)
(** ** The translator *)
(* ===================================================================== *)

Module TranslateFacts.
Import Zod ZodToBaml ZodFacts Chain.

(** *** [unwrapAll] stays inside the schema object *)

Lemma unwrap_loop_height (n : nat) (s : ZodType) (o nu : bool) :
  height (base (unwrap_loop n s o nu)) <= height s.
Proof.
  revert s o nu. induction n as [|n IH]; intros s o nu; simpl; [lia|].
  repeat match goal with
         | |- context [if ?b then _ else _] => destruct b
         end;
    try (simpl; lia);
    (etransitivity; [apply IH | apply or_else_height; auto with zod]).
Qed.

Lemma unwrapAll_height (s : ZodType) : height (base (unwrapAll s)) <= height s.
Proof. apply unwrap_loop_height. Qed.

Lemma unwrap_loop_stop (n : nat) (s : ZodType) (o nu : bool) :
  is_wrapper (getKind s) = false ->
  unwrap_loop n s o nu = mkUnwrapped s o nu.
Proof.
  unfold is_wrapper. intros H.
  repeat (apply orb_false_iff in H as [H ?]).
  destruct n; simpl; [reflexivity|].
  repeat match goal with
         | E : (?k =? ?c) = false |- context [?k =? ?c] => rewrite E
         end.
  reflexivity.
Qed.

Lemma unwrapAll_stop (s : ZodType) :
  is_wrapper (getKind s) = false -> unwrapAll s = mkUnwrapped s false false.
Proof. apply unwrap_loop_stop. Qed.

(** *** The result of [toBamlType] does not depend on the room left on
    the call stack *)

Section Ext.

Variables rec1 rec2 : ZodType -> option string -> M string.

Lemma object_fields_ext (name : string) (l : list (string * ZodType)) :
  (forall k c, In (k, c) l ->
     forall h ctx, rec1 (base (unwrapAll c)) h ctx
                   = rec2 (base (unwrapAll c)) h ctx) ->
  forall ctx, object_fields rec1 name l ctx = object_fields rec2 name l ctx.
Proof.
  induction l as [|[k c] l IH]; intros Hag ctx; simpl; [reflexivity|].
  unfold bind. rewrite (Hag k c (or_introl eq_refl)).
  destruct (rec2 _ _ ctx) as [[ty ctx']|e]; [|reflexivity].
  rewrite IH; [reflexivity|].
  intros k' c' Hin. apply (Hag k' c'). now right.
Qed.

Lemma union_parts_ext (hint : option string) (l : list ZodType) :
  (forall c, In c l -> forall h ctx, rec1 c h ctx = rec2 c h ctx) ->
  forall i ctx, union_parts rec1 hint i l ctx = union_parts rec2 hint i l ctx.
Proof.
  induction l as [|c l IH]; intros Hag i ctx; simpl; [reflexivity|].
  unfold bind. rewrite (Hag c (or_introl eq_refl)).
  destruct (rec2 _ _ ctx) as [[ty ctx']|e]; [|reflexivity].
  rewrite IH; [reflexivity|].
  intros c' Hin. apply Hag. now right.
Qed.

(** The body only calls [rec] on schemas below the one it is given, and
    on a fresh [z.string()] for the key of a record. *)
Lemma toBamlType_body_ext (s : ZodType) :
  (forall c, height c < height s ->
     forall h ctx, rec1 c h ctx = rec2 c h ctx) ->
  (forall h ctx, rec1 z.string_ h ctx = rec2 z.string_ h ctx) ->
  forall h ctx, toBamlType_body rec1 s h ctx = toBamlType_body rec2 s h ctx.
Proof.
  intros Hlow Hstr h ctx.
  pose proof (unwrapAll_height s) as Hb.
  unfold toBamlType_body.
  set (b := base (unwrapAll s)) in *.
  assert (Hchild : forall o c, from_props b o -> o = Some c ->
            forall h ctx, rec1 c h ctx = rec2 c h ctx).
  { intros o c Ho Hc. apply Hlow.
    pose proof (from_props_height b o c Ho Hc). lia. }
  destruct (getKind b =? "ZodObject").
  { unfold bind. destruct (uniqueClassName _ ctx) as [[name ctx1]|e];
      [|reflexivity].
    destruct (shape b) as [l|] eqn:Hsh; [|reflexivity].
    rewrite object_fields_ext; [reflexivity|].
    intros k c Hin. apply Hlow.
    pose proof (height_shape b l k c Hsh Hin).
    pose proof (unwrapAll_height c). lia. }
  destruct (getKind b =? "ZodString"); [reflexivity|].
  destruct (getKind b =? "ZodNumber"); [reflexivity|].
  destruct (getKind b =? "ZodBoolean"); [reflexivity|].
  destruct (getKind b =? "ZodLiteral"); [reflexivity|].
  destruct (getKind b =? "ZodNull"); [reflexivity|].
  destruct (getKind b =? "ZodArray").
  { unfold bind.
    match goal with
    | |- context [match ?o with Some _ => _ | None => ret "string" end] =>
        assert (Ho : from_props b o) by auto 10 with zod;
        destruct o as [c|] eqn:Ec
    end; [|reflexivity].
    pose proof (from_props_height b _ c Ho eq_refl).
    pose proof (unwrapAll_height c).
    rewrite Hlow by lia. reflexivity. }
  destruct (getKind b =? "ZodEnum"); [reflexivity|].
  destruct (getKind b =? "ZodNativeEnum"); [reflexivity|].
  destruct (getKind b =? "ZodRecord").
  { unfold bind.
    assert (Hk : rec1 (Js.or_else (prop "keyType" b) z.string_)
                      (hint_plus h "Key") ctx
                 = rec2 (Js.or_else (prop "keyType" b) z.string_)
                        (hint_plus h "Key") ctx).
    { destruct (prop "keyType" b) as [c|] eqn:Ec; simpl; [|apply Hstr].
      eapply Hchild; [|exact Ec]. auto with zod. }
    rewrite Hk. destruct (rec2 _ _ ctx) as [[kt ctx1]|e]; [|reflexivity].
    destruct (prop "valueType" b) as [c|] eqn:Ec; [|reflexivity].
    erewrite Hchild; [reflexivity| |exact Ec]. auto with zod. }
  destruct (getKind b =? "ZodUnion").
  { destruct (options b) as [l|] eqn:Ho; [|reflexivity].
    unfold bind. rewrite union_parts_ext; [reflexivity|].
    intros c Hin. apply Hlow.
    pose proof (height_options b l c Ho Hin). lia. }
  destruct (getKind b =? "ZodLazy").
  { destruct (prop "getter" b) as [c|] eqn:Ec; [|reflexivity].
    eapply Hchild; [|exact Ec]. auto with zod. }
  match goal with
  | |- context [match ?o with Some _ => _ | None => throw _ end] =>
      assert (Ho : from_props b o) by auto 10 with zod;
      destruct o as [c|] eqn:Ec
  end; [|reflexivity].
  eapply Hchild; [exact Ho|reflexivity].
Qed.

End Ext.

Lemma toBamlType_within_string (d : nat) (h : option string) (ctx : Ctx) :
  toBamlType_within (S d) z.string_ h ctx = Ok ("string", ctx).
Proof. reflexivity. Qed.

Lemma toBamlType_within_stable (d1 : nat) :
  forall (d2 : nat) (s : ZodType),
    height s < d1 -> height s < d2 ->
    forall h ctx,
      toBamlType_within d1 s h ctx = toBamlType_within d2 s h ctx.
Proof.
  induction d1 as [|d1 IH]; intros d2 s H1 H2 h ctx; [lia|].
  destruct d2 as [|d2]; [lia|]. simpl.
  pose proof (height_pos s).
  apply toBamlType_body_ext.
  - intros c Hc h' ctx'. apply IH; lia.
  - intros h' ctx'. destruct d1; [lia|]. destruct d2; [lia|]. reflexivity.
Qed.

(** Any room above the height of the schema gives the result of
    [toBamlType]: the call stack is never exhausted on the way. *)
Lemma toBamlType_within_enough (d : nat) (s : ZodType) :
  height s < d ->
  forall h ctx, toBamlType_within d s h ctx = toBamlType s h ctx.
Proof.
  intros H h ctx. unfold toBamlType. apply toBamlType_within_stable; lia.
Qed.

(** The defining equation of [toBamlType]. *)
Lemma toBamlType_eq (s : ZodType) (h : option string) (ctx : Ctx) :
  toBamlType s h ctx = toBamlType_body toBamlType s h ctx.
Proof.
  unfold toBamlType at 1. simpl.
  pose proof (height_pos s).
  apply toBamlType_body_ext.
  - intros c Hc h' ctx'. apply toBamlType_within_enough. lia.
  - intros h' ctx'. destruct (height s) eqn:E; [lia|]. reflexivity.
Qed.

(** *** A run that ends with a type ends the same way with more room *)

Section Mono.

Variables rec1 rec2 : ZodType -> option string -> M string.
Hypothesis rec_mono :
  forall c h ctx r, rec1 c h ctx = Ok r -> rec2 c h ctx = Ok r.




End Mono.


(** *** The call stack is never exhausted *)

Lemma bind_no_overflow {A B} (m : M A) (f : A -> M B) (ctx : Ctx) :
  ~ overflows (m ctx) ->
  (forall a ctx', m ctx = Ok (a, ctx') -> ~ overflows (f a ctx')) ->
  ~ overflows (bind m f ctx).
Proof.
  unfold bind. intros Hm Hf. destruct (m ctx) as [[a ctx']|e].
  - now apply Hf.
  - intros [msg [= ->]]. apply Hm. now exists msg.
Qed.

Ltac no_overflow := intros [? ?]; discriminate.

Section NoOverflow.

Variable rec : ZodType -> option string -> M string.

Lemma object_fields_no_overflow (name : string)
    (l : list (string * ZodType)) :
  (forall k c, In (k, c) l ->
     forall h ctx, ~ overflows (rec (base (unwrapAll c)) h ctx)) ->
  forall ctx, ~ overflows (object_fields rec name l ctx).
Proof.
  induction l as [|[k c] l IH]; intros Hrec ctx; cbn [object_fields].
  - no_overflow.
  - apply bind_no_overflow; [apply (Hrec k c); now left|].
    intros ty ctx1 _. apply bind_no_overflow.
    + apply IH. intros k' c' Hin. apply (Hrec k' c'). now right.
    + intros fs ctx2 _. no_overflow.
Qed.

Lemma union_parts_no_overflow (hint : option string) (l : list ZodType) :
  (forall c, In c l -> forall h ctx, ~ overflows (rec c h ctx)) ->
  forall i ctx, ~ overflows (union_parts rec hint i l ctx).
Proof.
  induction l as [|c l IH]; intros Hrec i ctx; cbn [union_parts].
  - no_overflow.
  - apply bind_no_overflow; [apply Hrec; now left|].
    intros ty ctx1 _. apply bind_no_overflow.
    + apply IH. intros c' Hin. apply Hrec. now right.
    + intros ps ctx2 _. no_overflow.
Qed.

Lemma toBamlType_body_no_overflow (s : ZodType) :
  (forall c, height c < height s ->
     forall h ctx, ~ overflows (rec c h ctx)) ->
  (forall h ctx, ~ overflows (rec z.string_ h ctx)) ->
  forall h ctx, ~ overflows (toBamlType_body rec s h ctx).
Proof.
  intros Hlow Hstr h ctx.
  pose proof (unwrapAll_height s) as Hb.
  unfold toBamlType_body.
  set (b := base (unwrapAll s)) in *.
  assert (Hchild : forall o c, from_props b o -> o = Some c ->
            forall h ctx, ~ overflows (rec c h ctx)).
  { intros o c Ho Hc. apply Hlow.
    pose proof (from_props_height b o c Ho Hc). lia. }
  destruct (getKind b =? "ZodObject").
  { apply bind_no_overflow.
    - unfold uniqueClassName. destruct (fresh_loop _ _ _ _ _). no_overflow.
    - intros name ctx1 _.
      destruct (shape b) as [l|] eqn:Hsh; [|no_overflow].
      apply bind_no_overflow.
      + apply object_fields_no_overflow. intros k c Hin. apply Hlow.
        pose proof (height_shape b l k c Hsh Hin).
        pose proof (unwrapAll_height c). lia.
      + intros fs ctx2 _. no_overflow. }
  destruct (getKind b =? "ZodString"); [no_overflow|].
  destruct (getKind b =? "ZodNumber"); [no_overflow|].
  destruct (getKind b =? "ZodBoolean"); [no_overflow|].
  destruct (getKind b =? "ZodLiteral"); [no_overflow|].
  destruct (getKind b =? "ZodNull"); [no_overflow|].
  destruct (getKind b =? "ZodArray").
  { apply bind_no_overflow; [|intros inner ctx1 _; no_overflow].
    match goal with
    | |- context [match ?o with Some _ => _ | None => ret "string" end] =>
        assert (Ho : from_props b o) by auto 10 with zod;
        destruct o as [c|] eqn:Ec
    end; [|no_overflow].
    pose proof (from_props_height b _ c Ho eq_refl).
    pose proof (unwrapAll_height c).
    apply Hlow. lia. }
  destruct (getKind b =? "ZodEnum").
  { destruct (enum_values b); [no_overflow|].
    apply bind_no_overflow.
    - unfold uniqueAliasOrEnumName. destruct (fresh_loop _ _ _ _ _).
      no_overflow.
    - intros name ctx1 _. destruct (forallb isIdentifier _); no_overflow. }
  destruct (getKind b =? "ZodNativeEnum").
  { apply bind_no_overflow.
    - unfold uniqueAliasOrEnumName. destruct (fresh_loop _ _ _ _ _).
      no_overflow.
    - intros name ctx1 _. apply bind_no_overflow.
      + destruct (forallb isIdentifier _); no_overflow.
      + intros u ctx2 _. no_overflow. }
  destruct (getKind b =? "ZodRecord").
  { apply bind_no_overflow.
    - destruct (prop "keyType" b) as [c|] eqn:Ec; cbn [Js.or_else];
        [|apply Hstr].
      eapply Hchild; [|exact Ec]. auto with zod.
    - intros kt ctx1 _. apply bind_no_overflow.
      + destruct (prop "valueType" b) as [c|] eqn:Ec; [|no_overflow].
        eapply Hchild; [|exact Ec]. auto with zod.
      + intros v ctx2 _. no_overflow. }
  destruct (getKind b =? "ZodUnion").
  { destruct (options b) as [l|] eqn:Ho; [|no_overflow].
    apply bind_no_overflow.
    - apply union_parts_no_overflow. intros c Hin. apply Hlow.
      pose proof (height_options b l c Ho Hin). lia.
    - intros ps ctx1 _. no_overflow. }
  destruct (getKind b =? "ZodLazy").
  { destruct (prop "getter" b) as [c|] eqn:Ec; [|no_overflow].
    eapply Hchild; [|exact Ec]. auto with zod. }
  match goal with
  | |- context [match ?o with Some _ => _ | None => throw _ end] =>
      assert (Ho : from_props b o) by auto 10 with zod;
      destruct o as [c|] eqn:Ec
  end; [|no_overflow].
  eapply Hchild; [exact Ho|reflexivity].
Qed.

End NoOverflow.

Lemma toBamlType_within_no_overflow (d : nat) :
  forall (s : ZodType), height s < d ->
    forall h ctx, ~ overflows (toBamlType_within d s h ctx).
Proof.
  induction d as [|d IH]; intros s Hs h ctx; [lia|].
  cbn [toBamlType_within]. apply toBamlType_body_no_overflow.
  - intros c Hc h' ctx'. apply IH. lia.
  - intros h' ctx'. pose proof (height_pos s).
    destruct d; [lia|]. no_overflow.
Qed.

(** [toBamlType] returns a type or throws one of the errors of the
    sources, on every schema object. *)
Lemma toBamlType_no_overflow (s : ZodType) (h : option string) (ctx : Ctx) :
  ~ overflows (toBamlType s h ctx).
Proof. apply toBamlType_within_no_overflow. lia. Qed.

(** *** Wrapper chains *)



Section Body.

Variable rec : ZodType -> option string -> M string.



End Body.

End TranslateFacts.

(** ** Strings *)

Module StringFacts.

Lemma append_inj (p a b : string) : p ++ a = p ++ b -> a = b.
Proof.
  induction p as [|c p IH]; simpl; [auto|]. intros [= H]. auto.
Qed.

Lemma append_nonempty (p a : string) : p ++ a = p -> a = "".
Proof.
  induction p as [|c p IH]; simpl; [auto|]. intros [= H]. auto.
Qed.

Lemma append_assoc (a b c : string) : (a ++ b) ++ c = a ++ (b ++ c).
Proof. induction a as [|x a IH]; simpl; [reflexivity|]. now rewrite IH. Qed.

Lemma length_append (a b : string) :
  String.length (a ++ b) = String.length a + String.length b.
Proof. induction a as [|x a IH]; simpl; [reflexivity|]. now rewrite IH. Qed.

End StringFacts.

(** ** Fresh names *)

Module FreshFacts.
Import Zod ZodToBaml StringFacts.

Lemma of_nat_inj (a b : nat) : Js.of_nat a = Js.of_nat b -> a = b.
Proof.
  unfold Js.of_nat. intros H.
  assert (E : Some (Nat.to_uint a) = Some (Nat.to_uint b)).
  { rewrite <- !NilEmpty.usu. now rewrite H. }
  injection E as E.
  rewrite <- (DecimalNat.Unsigned.of_to a), <- (DecimalNat.Unsigned.of_to b).
  now rewrite E.
Qed.

Lemma of_nat_nonempty (n : nat) : Js.of_nat n <> "".
Proof.
  unfold Js.of_nat. intros H.
  pose proof (NilEmpty.usu (Nat.to_uint n)) as E. rewrite H in E.
  simpl in E. injection E as E.
  pose proof (DecimalNat.Unsigned.of_to n) as F. rewrite <- E in F.
  simpl in F. subst n. discriminate.
Qed.

Section Loop.

Variable taken : string -> bool.
Variable clean : string.
(** Every taken name is one of [keys]. *)
Variable keys : list string.
Hypothesis taken_keys : forall n, taken n = true -> In n keys.

(** [tried] are the names the loop has found taken so far. *)
Lemma fresh_loop_free (rounds : nat) :
  forall (name : string) (counter : nat) (tried : list string),
    NoDup tried ->
    incl tried keys ->
    ~ In name tried ->
    (forall k, counter < k -> ~ In (clean ++ Js.of_nat k) (name :: tried)) ->
    length keys <= rounds + length tried ->
    taken (fst (fresh_loop taken clean rounds name counter)) = false.
Proof.
  induction rounds as [|r IH]; intros name counter tried Hnd Hincl Hnew Hnext Hlen;
    simpl; destruct (taken name) eqn:Ht; try exact Ht.
  - exfalso.
    assert (Hnd' : NoDup (name :: tried)) by (constructor; assumption).
    assert (Hincl' : incl (name :: tried) keys).
    { intros x [<-|Hx]; auto. }
    pose proof (NoDup_incl_length Hnd' Hincl') as Hle. simpl in Hle. lia.
  - apply (IH _ _ (name :: tried)).
    + constructor; assumption.
    + intros x [<-|Hx]; auto.
    + apply Hnext. lia.
    + intros k Hk [E|Hin].
      * apply append_inj, of_nat_inj in E. lia.
      * apply (Hnext k); [lia|exact Hin].
    + simpl. lia.
Qed.

(** The name the loop returns is not taken. *)
Lemma fresh_loop_fresh (rounds counter : nat) :
  length keys <= rounds ->
  taken (fst (fresh_loop taken clean rounds clean counter)) = false.
Proof.
  intros Hr. apply (fresh_loop_free _ _ _ []).
  - constructor.
  - intros x [].
  - intros [].
  - intros k _ [E|[]]. symmetry in E.
    apply append_nonempty in E. now apply of_nat_nonempty in E.
  - simpl. lia.
Qed.

End Loop.

Lemma has_keys {V} (n : string) (m : JsMap.t V) :
  JsMap.has n m = true -> In n (JsMap.keys m).
Proof.
  unfold JsMap.has, JsMap.keys.
  induction m as [|[k v] m IH]; simpl; [discriminate|].
  destruct (String.eqb_spec n k) as [->|Hne]; [now left|].
  intros H. right. now apply IH.
Qed.

(** [uniqueAliasOrEnumName] returns a name that neither names an enum
    nor an alias, and changes the counter only. *)
Lemma uniqueAliasOrEnumName_fresh (hint : string) (ctx : Ctx) :
  exists name c,
    uniqueAliasOrEnumName hint ctx = Ok (name, set_counter c ctx)
    /\ JsMap.has name (enums ctx) = false
    /\ JsMap.has name (aliases ctx) = false.
Proof.
  unfold uniqueAliasOrEnumName.
  set (taken := fun n => JsMap.has n (enums ctx) || JsMap.has n (aliases ctx)).
  assert (Hk : forall n, taken n = true ->
                 In n (JsMap.keys (enums ctx) ++ JsMap.keys (aliases ctx))%list).
  { intros n Hn. apply in_or_app.
    apply orb_prop in Hn as [Hn|Hn]; [left|right]; now apply has_keys. }
  assert (Hl : length (JsMap.keys (enums ctx) ++ JsMap.keys (aliases ctx))%list
               <= length (enums ctx) + length (aliases ctx)).
  { unfold JsMap.keys. rewrite length_app, !length_map. lia. }
  pose proof (fresh_loop_fresh taken (toPascal hint) _ Hk _ (counter ctx) Hl)
    as H.
  destruct (fresh_loop _ _ _ _ _) as [name c]. simpl in H.
  apply orb_false_iff in H as [H1 H2].
  exists name, c. auto.
Qed.


Lemma get_set_same {V} (k : string) (v : V) (m : JsMap.t V) :
  JsMap.get k (JsMap.set k v m) = Some v.
Proof.
  induction m as [|[k' v'] m IH]; simpl.
  - now rewrite String.eqb_refl.
  - destruct (String.eqb_spec k k') as [->|Hne]; simpl.
    + now rewrite String.eqb_refl.
    + destruct (String.eqb_spec k k'); [contradiction|exact IH].
Qed.

(** [set] on a key that is not there adds the entry at the end. *)
Lemma set_new {V} (k : string) (v : V) (m : JsMap.t V) :
  JsMap.has k m = false -> JsMap.set k v m = (m ++ [(k, v)])%list.
Proof.
  unfold JsMap.has.
  induction m as [|[k' v'] m IH]; simpl; [reflexivity|].
  destruct (String.eqb k k'); [discriminate|].
  intros H. now rewrite IH.
Qed.

End FreshFacts.

(* ===================================================================== *)
(** ** Claims on the translator *)
(* ===================================================================== *)

Module Translator.
Import Zod ZodToBaml ZodFacts TranslateFacts FreshFacts StringFacts.
Import Chain Samples.

(** The first step of every proof below: unfold one call of
    [toBamlType] on a node whose kind [Hk] is known and is not peeled. *)
Ltac enter s Hk :=
  rewrite (toBamlType_eq s); unfold toBamlType_body;
  rewrite (unwrapAll_stop s)
    by (unfold is_wrapper; rewrite Hk; reflexivity);
  cbn [base]; rewrite Hk; cbn [String.eqb Ascii.eqb Bool.eqb].

(** The helpers on a few inputs. *)
Example identifiers :
  isIdentifier "Admin" = true /\ isIdentifier "_x9" = true
  /\ isIdentifier "North America" = false /\ isIdentifier "9lives" = false
  /\ isIdentifier "" = false.
Proof. repeat split. Qed.

Example pascal_names :
  toPascal "Root" = "Root" /\ toPascal "Root_isActive" = "RootIsActive"
  /\ toPascal "hello world__x9-y" = "HelloWorldX9Y".
Proof. repeat split. Qed.

Example quoted_union :
  literal_union ["North America"; "Europe"]
  = Js.dquote ++ "North America" ++ Js.dquote ++ " | "
    ++ Js.dquote ++ "Europe" ++ Js.dquote.
Proof. reflexivity. Qed.

(** Two classes asking for one name: the second gets the counter. *)
Example second_name :
  toBamlType (z.union [z.object [("a", z.string_)];
                       z.object [("b", z.number)]]) None new_ctx
  = Ok ("Obj | Obj1",
        mkCtx [("Obj", ClassType.mk "Obj" [Field.mk "a" "string" false None]);
               ("Obj1", ClassType.mk "Obj1" [Field.mk "b" "float" false None])]
              ["Obj"; "Obj1"] [] [] 1).
Proof. vm_compute. reflexivity. Qed.

(** The schema of the enum test of the repository:
    [{ role: z.nativeEnum(Role), area: z.enum(["North America", ...]) }]. *)
Example enum_and_alias :
  toBamlType
    (z.object
       [("role", z.nativeEnum [("Admin", MString "Admin");
                               ("User", MString "User")]);
        ("area", z.enum ["North America"; "South America"; "Europe";
                         "Asia"; "Africa"; "Oceania"])])
    (Some "Root") new_ctx
  = Ok ("Root",
        mkCtx [("Root",
                ClassType.mk "Root"
                  [Field.mk "role" "RootRole" false None;
                   Field.mk "area" "RootArea" false None])]
              ["Root"]
              [("RootRole", ["Admin"; "User"])]
              [("RootArea",
                literal_union ["North America"; "South America"; "Europe";
                               "Asia"; "Africa"; "Oceania"])]
              0).
Proof. vm_compute. reflexivity. Qed.

(** C10: an enum node whose raw values ([def.values ?? def.options ??
    base.options]) are not an array, or are an empty array, translates
    to the primitive type [string] without failing, and the translation
    context (enum map, alias map and all the rest) is left as it was. *)
Theorem enum_without_values (s : ZodType) (h : option string) (ctx : Ctx) :
  getKind s = "ZodEnum" ->
  (forall vs, values s ?? def_options s ?? self_options s = Some (JArray vs)
              -> vs = []) ->
  toBamlType s h ctx = Ok ("string", ctx).
Proof.
  intros Hk Hraw. enter s Hk.
  assert (E : enum_values s = []).
  { unfold enum_values.
    destruct (values s ?? def_options s ?? self_options s) as [[vs|o]|];
      auto. }
  rewrite E. reflexivity.
Qed.

Lemma enum_without_values_witness :
  toBamlType
    (Node "ZodEnum" None [] None None [] LUndefined
          (Some (JObject [("A", MString "A")])) None None)
    (Some "Root_kind") new_ctx
  = Ok ("string", new_ctx).
Proof.
  apply enum_without_values; [reflexivity|].
  intros vs H. discriminate H.
Defined.

(** C5, as the code has it: for an Enum node with at least one value,
    and for every NativeEnum node, a fresh name is chosen; when every
    value is an identifier the values are registered under that name in
    the enum map (and the alias map is unchanged); otherwise the
    JSON-quoted values joined by [ | ] are registered under that name in
    the alias map, and the enum map is unchanged, so the name is not
    that of an enumeration.  The name is returned in both cases. *)
Theorem enum_policy (s : ZodType) (h : option string) (ctx : Ctx)
    (vs : list string) :
  (getKind s = "ZodEnum" /\ enum_values s = vs /\ vs <> [])
  \/ (getKind s = "ZodNativeEnum" /\ native_enum_values s = vs) ->
  exists name ctx',
    toBamlType s h ctx = Ok (name, ctx')
    /\ types ctx' = types ctx /\ order ctx' = order ctx
    /\ (forallb isIdentifier vs = true ->
          enums ctx' = (enums ctx ++ [(name, vs)])%list
          /\ JsMap.get name (enums ctx') = Some vs
          /\ aliases ctx' = aliases ctx)
    /\ (forallb isIdentifier vs = false ->
          aliases ctx' = (aliases ctx ++ [(name, literal_union vs)])%list
          /\ JsMap.get name (aliases ctx') = Some (literal_union vs)
          /\ enums ctx' = enums ctx
          /\ JsMap.has name (enums ctx') = false).
Proof.
  intros H.
  destruct (uniqueAliasOrEnumName_fresh (hint_or h "Enum") ctx)
    as (name & c & Hu & He & Ha).
  exists name.
  destruct (forallb isIdentifier vs) eqn:Eid.
  - exists (set_enum name vs (set_counter c ctx)). split.
    + destruct H as [(Hk & Ev & Hne)|(Hk & Ev)]; enter s Hk; rewrite Ev;
        [destruct vs as [|v vs']; [congruence|]|];
        unfold bind; rewrite Hu, Eid; reflexivity.
    + cbn. split; [reflexivity|]. split; [reflexivity|].
      split; [intros _|discriminate].
      split; [now apply set_new|]. split; [apply get_set_same|reflexivity].
  - exists (set_alias name (literal_union vs) (set_counter c ctx)). split.
    + destruct H as [(Hk & Ev & Hne)|(Hk & Ev)]; enter s Hk; rewrite Ev;
        [destruct vs as [|v vs']; [congruence|]|];
        unfold bind; rewrite Hu, Eid; reflexivity.
    + cbn. split; [reflexivity|]. split; [reflexivity|].
      split; [discriminate|intros _].
      split; [now apply set_new|]. split; [apply get_set_same|].
      split; [reflexivity|exact He].
Qed.

Lemma enum_policy_witness :
  exists name ctx',
    toBamlType (z.enum ["North America"; "Europe"]) (Some "Root_area") new_ctx
    = Ok (name, ctx')
    /\ aliases ctx'
        = [(name, literal_union ["North America"; "Europe"])]
    /\ JsMap.has name (enums ctx') = false.
Proof.
  destruct (enum_policy (z.enum ["North America"; "Europe"])
              (Some "Root_area") new_ctx ["North America"; "Europe"])
    as (name & ctx' & Ht & _ & _ & _ & Halias).
  - left. split; [reflexivity|]. split; [reflexivity|discriminate].
  - destruct (Halias eq_refl) as (Ha & _ & _ & Hn).
    exists name, ctx'. split; [exact Ht|]. split; [exact Ha|exact Hn].
Defined.

(** C5 as stated fails on an Enum node without values: every value is
    an identifier (there is none), and yet nothing is registered and the
    type returned is [string]. *)
Lemma enum_policy_counterexample :
  getKind (z.enum []) = "ZodEnum"
  /\ forallb isIdentifier (enum_values (z.enum [])) = true
  /\ toBamlType (z.enum []) (Some "Root_area") new_ctx = Ok ("string", new_ctx)
  /\ enums new_ctx = [].
Proof. repeat split. Qed.

(** C6: an array node whose (unwrapped) element translates to [inner]
    translates to [(inner)[]] when [inner] contains the union operator
    [|], which is not [inner[]]; and to [inner[]] when it does not. *)
Theorem array_of_union (s e : ZodType) (h : option string) (ctx ctx' : Ctx)
    (inner : string) :
  getKind s = "ZodArray" ->
  prop "element" s ?? prop "type" s ?? prop "items" s ?? prop "item" s
    ?? prop "itemType" s = Some e ->
  toBamlType (base (unwrapAll e)) (hint_plus h "Item") ctx = Ok (inner, ctx') ->
  (Js.includes "|" inner = true ->
     toBamlType s h ctx = Ok ("(" ++ inner ++ ")[]", ctx')
     /\ "(" ++ inner ++ ")[]" <> inner ++ "[]")
  /\ (Js.includes "|" inner = false ->
     toBamlType s h ctx = Ok (inner ++ "[]", ctx')).
Proof.
  intros Hk He Hin.
  assert (E : toBamlType s h ctx = Ok (parenIfUnion inner ++ "[]", ctx')).
  { enter s Hk. rewrite He. unfold bind. rewrite Hin. reflexivity. }
  unfold parenIfUnion in E. split; intros Hu; rewrite Hu in E.
  - split.
    + rewrite E. cbn [append]. now rewrite append_assoc.
    + intros C. apply (f_equal String.length) in C.
      cbn [append String.length] in C. rewrite !length_append in C.
      simpl in C. lia.
  - exact E.
Qed.

Lemma array_of_union_witness :
  toBamlType (z.array (z.union [z.string_; z.number])) (Some "Root_xs")
             new_ctx
  = Ok ("(" ++ "string | float" ++ ")[]", new_ctx)
  /\ toBamlType (z.array z.boolean) (Some "Root_xs") new_ctx
     = Ok ("bool" ++ "[]", new_ctx).
Proof.
  split.
  - apply (array_of_union (z.array (z.union [z.string_; z.number]))
                          (z.union [z.string_; z.number])
                          (Some "Root_xs") new_ctx new_ctx "string | float");
      vm_compute; reflexivity.
  - apply (array_of_union (z.array z.boolean) z.boolean
                          (Some "Root_xs") new_ctx new_ctx "bool");
      vm_compute; reflexivity.
Defined.

(** C8: the schema [mixed] translates to one class, [Root], and nothing
    else; the class has exactly six fields, in the order of declaration;
    [maybe] is the only optional field; the type of [nick] is the union
    of [string] with [null]. *)
Theorem six_field_class :
  toBamlType mixed (Some "Root") new_ctx
  = Ok ("Root",
        mkCtx [("Root", ClassType.mk "Root" mixed_fields)] ["Root"] [] [] 0)
  /\ length mixed_fields = 6
  /\ map Field.name mixed_fields
     = ["id"; "rating"; "isActive"; "tags"; "maybe"; "nick"]
  /\ map Field.optional mixed_fields
     = [false; false; false; false; true; false]
  /\ nth 5 (map Field.type mixed_fields) "" = "string" ++ " | " ++ "null"
  /\ render_class (ClassType.mk "Root" mixed_fields)
     = [ "class Root {"; "  id int"; "  rating float"; "  isActive bool";
         "  tags string[]"; "  maybe string?"; "  nick string | null"; "}" ].
Proof.
  repeat split; vm_compute; reflexivity.
Qed.




(** A schema with no rule and no inner schema is the one that fails. *)
Lemma unsupported_kind (s : ZodType) (h : option string) (ctx : Ctx) :
  is_wrapper (getKind s) = false ->
  has_rule (getKind s) = false ->
  prop "innerType" s ?? prop "schema" s ?? prop "type" s ?? prop "out" s
    ?? prop "output" s = None ->
  toBamlType s h ctx = Throw (Error ("Unsupported Zod type: " ++ getKind s)).
Proof.
  intros Hw Hr Hin.
  rewrite (toBamlType_eq s). unfold toBamlType_body.
  rewrite (unwrapAll_stop s Hw). cbn [base].
  unfold has_rule in Hr. cbn [existsb] in Hr.
  repeat (apply orb_false_iff in Hr as [? Hr]).
  repeat match goal with
         | E : (?k =? ?c) = false |- context [?k =? ?c] => rewrite E
         end.
  now rewrite Hin.
Qed.

(** A wrapper that wraps nothing is what is left of it after fifty
    rounds, and has no rule. *)
Example lone_wrapper :
  toBamlType (z.node "ZodOptional" None []) (Some "Root") new_ctx
  = Throw (Error "Unsupported Zod type: ZodOptional").
Proof. vm_compute. reflexivity. Qed.

End Translator.

(* ===================================================================== *)
(** ** The hint builder *)
(* ===================================================================== *)

Module HintFacts.
Import Zod ZodToBaml JsonHint ZodFacts TranslateFacts.

Section Ext.

Variables rec1 rec2 : ZodType -> result jsstring.




End Ext.




End HintFacts.

(* ===================================================================== *)
(** ** Claims on the hint builder *)
(* ===================================================================== *)

Module Hint.
Import Zod ZodToBaml JsonHint TranslateFacts Samples.

(** C7: merging a hint into a message sequence.  When the first message
    has role [system], the hint is appended to its content (after an
    empty line) and the number of messages is unchanged; when the
    sequence is not empty and its first message has another role, a
    system message carrying the hint is put in front and the number of
    messages grows by one; when the sequence is empty, the result is
    the one system message carrying the hint. *)
Theorem hint_merge (hint : string) (messages : list Message.t) :
  (forall first others,
     messages = first :: others -> Message.role first = "system" ->
     mergeJsonHintIntoMessages hint messages
     = Message.mk "system"
                  (Message.content first ++ Js.nl ++ Js.nl ++ hint)
                  (Message.rest first) :: others
     /\ length (mergeJsonHintIntoMessages hint messages) = length messages)
  /\ (forall first others,
        messages = first :: others -> Message.role first <> "system" ->
        mergeJsonHintIntoMessages hint messages
        = Message.mk "system" hint [] :: messages
        /\ length (mergeJsonHintIntoMessages hint messages)
           = S (length messages))
  /\ (messages = [] ->
      mergeJsonHintIntoMessages hint messages = [Message.mk "system" hint []]).
Proof.
  split; [|split].
  - intros first others -> Hrole. unfold mergeJsonHintIntoMessages.
    rewrite Hrole. simpl. split; reflexivity.
  - intros first others -> Hrole. unfold mergeJsonHintIntoMessages.
    apply String.eqb_neq in Hrole. rewrite Hrole. split; reflexivity.
  - intros ->. reflexivity.
Qed.

Lemma hint_merge_witness :
  (mergeJsonHintIntoMessages "JSON only."
     [Message.mk "system" "Be brief." []; Message.mk "user" "A fruit." []]
   = [Message.mk "system" ("Be brief." ++ Js.nl ++ Js.nl ++ "JSON only.") [];
      Message.mk "user" "A fruit." []])
  /\ (mergeJsonHintIntoMessages "JSON only." [Message.mk "user" "A fruit." []]
      = [Message.mk "system" "JSON only." [];
         Message.mk "user" "A fruit." []])
  /\ (mergeJsonHintIntoMessages "JSON only." []
      = [Message.mk "system" "JSON only." []]).
Proof.
  split; [|split].
  - apply (proj1 (hint_merge "JSON only."
             [Message.mk "system" "Be brief." [];
              Message.mk "user" "A fruit." []])
             (Message.mk "system" "Be brief." [])
             [Message.mk "user" "A fruit." []] eq_refl eq_refl).
  - apply (proj1 (proj2 (hint_merge "JSON only."
             [Message.mk "user" "A fruit." []]))
             (Message.mk "user" "A fruit." []) [] eq_refl).
    discriminate.
  - apply (proj2 (proj2 (hint_merge "JSON only." []))). reflexivity.
Defined.

(** A kind without a description rule is described as [unknown]. *)
Lemma describe_unknown (s : ZodType) :
  is_wrapper (getKind s) = false ->
  described (getKind s) = false ->
  describeSchema s = Ok (Some "unknown").
Proof.
  intros Hw Hd. unfold describeSchema. cbn [describeSchema_within].
  unfold describeSchema_body.
  rewrite (unwrapAll_stop s Hw). cbn [base].
  unfold described in Hd. cbn [existsb] in Hd.
  repeat (apply orb_false_iff in Hd as [? Hd]).
  repeat match goal with
         | E : (?k =? ?c) = false |- context [?k =? ?c] => rewrite E
         end.
  reflexivity.
Qed.

(** C9 does not hold of the code.  On a literal node whose value is a
    BigInt, [describeSchema] throws the [TypeError] of [JSON.stringify],
    where [toBamlType] falls back to [string]; on a literal node whose
    value is [undefined] it returns [undefined], which is not a string.
    The schema [bigint_and_date] is rejected by the translator (no rule
    for a date) and the hint cannot be built for it either. *)
Theorem describe_literal_bigint :
  describeSchema (z.literal_ (LBigInt 1))
  = Throw (TypeError "Do not know how to serialize a BigInt")
  /\ toBamlType (z.literal_ (LBigInt 1)) (Some "Root") new_ctx
     = Ok ("string", new_ctx)
  /\ describeSchema (z.literal_ LUndefined) = Ok None
  /\ toBamlType bigint_and_date (Some "Root") new_ctx
     = Throw (Error "Unsupported Zod type: ZodDate")
  /\ buildJsonHint bigint_and_date
     = Throw (TypeError "Do not know how to serialize a BigInt").
Proof. repeat split; vm_compute; reflexivity. Qed.

End Hint.

(* ===================================================================== *)
(** ** Claims on the orchestrator *)
(* ===================================================================== *)

Module Orchestrator.
Import Zod ZodToBaml JsonHint GenerateObject Samples.

Lemma requests_failed (k : nat) (req : Request) (w : World) :
  requests (failed k req w) = (requests w ++ repeat req k)%list.
Proof.
  induction k as [|k IH]; cbn [failed repeat].
  - now rewrite app_nil_r.
  - cbn [sleep send requests]. rewrite IH, <- app_assoc.
    f_equal. change [req] with (repeat req 1). rewrite <- repeat_app.
    now rewrite Nat.add_1_r.
Qed.

Lemma parsed_failed (k : nat) (req : Request) (w : World) :
  parsed (failed k req w) = parsed w.
Proof. induction k as [|k IH]; [reflexivity|exact IH]. Qed.

Lemma length_sleeps_failed (k : nat) (req : Request) (w : World) :
  length (sleeps (failed k req w)) = length (sleeps w) + k.
Proof.
  induction k as [|k IH]; cbn [failed]; [lia|].
  cbn [sleep send sleeps]. rewrite length_app, IH. cbn [length]. lia.
Qed.

Lemma sleeps_failed_2 (req : Request) (w : World) :
  sleeps (failed 2 req w) = (sleeps w ++ [250; 500])%list.
Proof. cbn. now rewrite <- app_assoc. Qed.

Section Run.

Variable env : Env.
Variable opts : Options.
Variable s : ZodType.
Variable b : Baml.
Variable client : Client.
Variable jsonHint : string.

(** The steps before the retry loop succeed. *)
Hypothesis Hschema : schema opts = Some s.
Hypothesis Hbuild : buildBamlFromZod s = Ok b.
Hypothesis Hclient : buildAndLoadBamlClient env (workspace env b) = Ok client.
Hypothesis Hhint : buildJsonHint s = Ok jsonHint.

Lemma run_eq (w : World) :
  generateObjectCompat env opts w
  = io_bind (attempt env attempts 0 (request opts jsonHint))
            (finish client (funcName b)) (prepared env b w).
Proof.
  unfold generateObjectCompat. rewrite Hschema.
  unfold io_bind at 1. unfold lift at 1. rewrite Hbuild.
  unfold io_bind at 1. unfold prepareWorkspace at 1.
  unfold io_bind at 1. unfold lift at 1.
  fold (workspace env b). rewrite Hclient.
  unfold io_bind at 1. unfold lift at 1. rewrite Hhint.
  reflexivity.
Qed.

(** The retry loop after [k] failures and then an answer. *)
Lemma attempt_answer (req : Request) (r : TextResult) (fail : nat -> error)
    (k : nat) (w : World) :
  k < attempts ->
  (forall j, j < k ->
     generateText env (length (requests w) + j) req = Throw (fail j)) ->
  generateText env (length (requests w) + k) req = Ok r ->
  attempt env attempts 0 req w = (Ok (Some r), send req (failed k req w)).
Proof.
  unfold attempts. intros Hk Hfail Hok.
  destruct k as [|[|[|k]]]; [| | |lia].
  - rewrite Nat.add_0_r in Hok. cbn [attempt failed]. now rewrite Hok.
  - pose proof (Hfail 0 ltac:(lia)) as H0. rewrite Nat.add_0_r in H0.
    cbn [attempt failed]. rewrite H0. cbn [Nat.eqb Nat.sub].
    cbn [sleep send requests]. rewrite length_app. cbn [length].
    now rewrite Hok.
  - pose proof (Hfail 0 ltac:(lia)) as H0. rewrite Nat.add_0_r in H0.
    pose proof (Hfail 1 ltac:(lia)) as H1.
    cbn [attempt failed]. rewrite H0. cbn [Nat.eqb Nat.sub].
    cbn [sleep send requests]. rewrite length_app. cbn [length].
    rewrite H1. cbn [Nat.eqb Nat.sub]. rewrite !length_app. cbn [length].
    replace (length (requests w) + 1 + 1) with (length (requests w) + 2)
      by lia.
    now rewrite Hok.
Qed.

(** The retry loop when all three attempts fail. *)
Lemma attempt_exhausted (req : Request) (e1 e2 e3 : error) (w : World) :
  generateText env (length (requests w)) req = Throw e1 ->
  generateText env (S (length (requests w))) req = Throw e2 ->
  generateText env (S (S (length (requests w)))) req = Throw e3 ->
  attempt env attempts 0 req w = (Throw e3, send req (failed 2 req w)).
Proof.
  intros H1 H2 H3. unfold attempts. cbn [attempt failed].
  rewrite H1. cbn [Nat.eqb Nat.sub]. cbn [sleep send requests].
  rewrite length_app. cbn [length]. rewrite Nat.add_1_r, H2.
  cbn [Nat.eqb Nat.sub]. rewrite !length_app. cbn [length].
  rewrite !Nat.add_1_r, H3. reflexivity.
Qed.

(** C2: the text-generation call is made at most three times, with
    delays of 250 ms and then 500 ms in between.  When it fails twice
    and then answers, the run goes on with that answer after exactly two
    retries (three requests sent, the two delays awaited) and, the text
    being usable and accepted by the parser, returns it with the parsed
    object.  When it fails three times, the third error is what the run
    throws; no fourth request is sent, no third delay is awaited, and
    the parser is not called. *)
Theorem retry_behaviour (w : World) (e1 e2 : error) :
  generateText env (length (requests w)) (request opts jsonHint) = Throw e1 ->
  generateText env (S (length (requests w))) (request opts jsonHint)
  = Throw e2 ->
  (forall r,
     generateText env (S (S (length (requests w)))) (request opts jsonHint)
     = Ok r ->
     exists w3,
       generateObjectCompat env opts w
       = finish client (funcName b) (Some r) w3
       /\ requests w3
          = (requests w ++ repeat (request opts jsonHint) 3)%list
       /\ sleeps w3 = (sleeps w ++ [250; 500])%list
       /\ parsed w3 = parsed w
       /\ forall t p object,
            Js.or_else (text r ?? output_text r) "" = t ->
            Js.truthy t = true ->
            parse client (funcName b) = Some p ->
            p t = Ok object ->
            generateObjectCompat env opts w
            = (Ok (mkResult object t (usage r) (finishReason r)),
               parsing (funcName b) t w3))
  /\ (forall e3,
        generateText env (S (S (length (requests w)))) (request opts jsonHint)
        = Throw e3 ->
        exists w3,
          generateObjectCompat env opts w = (Throw e3, w3)
          /\ requests w3
             = (requests w ++ repeat (request opts jsonHint) 3)%list
          /\ sleeps w3 = (sleeps w ++ [250; 500])%list
          /\ parsed w3 = parsed w).
Proof.
  intros H1 H2.
  set (req := request opts jsonHint) in *.
  set (w0 := prepared env b w).
  assert (Hw0 : requests w0 = requests w /\ sleeps w0 = sleeps w
                /\ parsed w0 = parsed w) by (repeat split).
  destruct Hw0 as (Hr0 & Hs0 & Hp0).
  split.
  - intros r H3. exists (send req (failed 2 req w0)).
    assert (Ha : attempt env attempts 0 req w0
                 = (Ok (Some r), send req (failed 2 req w0))).
    { apply (attempt_answer req r (fun j => if j =? 0 then e1 else e2)%nat);
        [unfold attempts; lia| |].
      - intros j Hj. rewrite Hr0.
        destruct j as [|[|j]]; [| |lia].
        + now rewrite Nat.add_0_r.
        + now rewrite Nat.add_1_r.
      - rewrite Hr0.
        replace (length (requests w) + 2) with (S (S (length (requests w))))
          by lia.
        exact H3. }
    assert (Hrun : generateObjectCompat env opts w
                   = finish client (funcName b) (Some r)
                            (send req (failed 2 req w0))).
    { rewrite run_eq. fold w0 req. unfold io_bind. now rewrite Ha. }
    split; [exact Hrun|].
    split.
    { cbn [send requests]. rewrite requests_failed, Hr0, <- app_assoc.
      f_equal. }
    split.
    { cbn [send sleeps]. now rewrite sleeps_failed_2, Hs0. }
    split.
    { cbn [send parsed]. now rewrite parsed_failed. }
    intros t p object Ht Htruthy Hp Hobj.
    rewrite Hrun. unfold finish. rewrite Ht, Htruthy. cbn [negb].
    rewrite Hp, Hobj. reflexivity.
  - intros e3 H3. exists (send req (failed 2 req w0)).
    split.
    { rewrite run_eq. fold w0 req. unfold io_bind.
      rewrite (attempt_exhausted req e1 e2 e3 w0); [reflexivity| | |];
        rewrite Hr0; assumption. }
    split.
    { cbn [send requests]. rewrite requests_failed, Hr0, <- app_assoc.
      f_equal. }
    split.
    { cbn [send sleeps]. now rewrite sleeps_failed_2, Hs0. }
    cbn [send parsed]. now rewrite parsed_failed.
Qed.

(** C3: when the text-generation call answers ([k] failed attempts
    before it, [k < 3]) and both [text] and [output_text] of the answer
    are absent or empty, the run throws the empty-text error at once:
    the answering request is the last one sent, no delay is awaited
    after it, and the parser is not called. *)
Theorem empty_output_not_retried (w : World) (k : nat) (fail : nat -> error)
    (r : TextResult) :
  k < attempts ->
  (forall j, j < k ->
     generateText env (length (requests w) + j) (request opts jsonHint)
     = Throw (fail j)) ->
  generateText env (length (requests w) + k) (request opts jsonHint) = Ok r ->
  unusable r ->
  exists w',
    generateObjectCompat env opts w
    = (Throw (Error "generateText returned empty text"), w')
    /\ requests w'
       = (requests w ++ repeat (request opts jsonHint) (S k))%list
    /\ length (sleeps w') = length (sleeps w) + k
    /\ parsed w' = parsed w.
Proof.
  intros Hk Hfail Hok [Ht Ho].
  set (req := request opts jsonHint) in *.
  set (w0 := prepared env b w).
  assert (Hw0 : requests w0 = requests w /\ parsed w0 = parsed w)
    by (repeat split).
  destruct Hw0 as (Hr0 & Hp0).
  exists (send req (failed k req w0)). split; [|split; [|split]].
  - rewrite run_eq. fold w0 req. unfold io_bind.
    rewrite (attempt_answer req r fail k w0 Hk);
      [| intros j Hj; rewrite Hr0; now apply Hfail | now rewrite Hr0].
    unfold finish.
    assert (E : Js.or_else (text r ?? output_text r) "" = "").
    { destruct Ht as [->| ->]; [|reflexivity].
      destruct Ho as [->| ->]; reflexivity. }
    rewrite E. reflexivity.
  - cbn [send requests]. rewrite requests_failed, Hr0, <- app_assoc.
    f_equal. change [req] with (repeat req 1). rewrite <- repeat_app.
    now rewrite Nat.add_1_r.
  - cbn [send sleeps]. now rewrite length_sleeps_failed.
  - cbn [send parsed]. now rewrite parsed_failed.
Qed.

End Run.

(** *** A concrete run *)

Lemma fruit_builds : buildBamlFromZod fruit = Ok fruit_baml.
Proof. vm_compute. reflexivity. Qed.

Lemma fruit_hinted : buildJsonHint fruit = Ok fruit_hint.
Proof. vm_compute. reflexivity. Qed.

Lemma retry_behaviour_witness :
  (exists w3,
     generateObjectCompat
       (scripted (fun n => if n <? 2 then Throw (timeout n) else Ok apple)%nat)
       fruit_opts new_world
     = (Ok (mkResult "{ name: apple, color: red }"
                     "{ name: apple, color: red }" None (Some "stop")),
        parsing "GenRoot" "{ name: apple, color: red }" w3)
     /\ length (requests w3) = 3
     /\ sleeps w3 = [250; 500]
     /\ parsed w3 = [])
  /\ (exists w3,
        generateObjectCompat (scripted (fun n => Throw (timeout n)))
                             fruit_opts new_world
        = (Throw (timeout 2), w3)
        /\ length (requests w3) = 3
        /\ sleeps w3 = [250; 500]
        /\ parsed w3 = []).
Proof.
  split.
  - destruct (retry_behaviour
                (scripted (fun n => if n <? 2 then Throw (timeout n)
                                    else Ok apple)%nat)
                fruit_opts fruit fruit_baml echo_client fruit_hint
                eq_refl fruit_builds eq_refl fruit_hinted
                new_world (timeout 0) (timeout 1) eq_refl eq_refl)
      as [Hok _].
    destruct (Hok apple eq_refl) as (w3 & _ & Hr & Hs & Hp & Hres).
    exists w3. split.
    + apply (Hres "{ name: apple, color: red }" (fun t => Ok t));
        reflexivity.
    + split; [now rewrite Hr|]. split; assumption.
  - destruct (retry_behaviour
                (scripted (fun n => Throw (timeout n)))
                fruit_opts fruit fruit_baml echo_client fruit_hint
                eq_refl fruit_builds eq_refl fruit_hinted
                new_world (timeout 0) (timeout 1) eq_refl eq_refl)
      as [_ Hfail].
    destruct (Hfail (timeout 2) eq_refl) as (w3 & Hrun & Hr & Hs & Hp).
    exists w3. split; [exact Hrun|].
    split; [now rewrite Hr|]. split; assumption.
Defined.

Lemma empty_output_not_retried_witness :
  exists w',
    generateObjectCompat
      (scripted (fun n => if n <? 1 then Throw (timeout n) else Ok nothing)%nat)
      fruit_opts new_world
    = (Throw (Error "generateText returned empty text"), w')
    /\ length (requests w') = 2
    /\ parsed w' = [].
Proof.
  destruct (empty_output_not_retried
              (scripted (fun n => if n <? 1 then Throw (timeout n)
                                  else Ok nothing)%nat)
              fruit_opts fruit fruit_baml echo_client fruit_hint
              eq_refl fruit_builds eq_refl fruit_hinted
              new_world 1 timeout nothing)
    as (w' & Hrun & Hr & _ & Hp).
  - unfold attempts. lia.
  - intros j Hj. assert (j = 0) by lia. subst j. reflexivity.
  - reflexivity.
  - split; [left|right]; reflexivity.
  - exists w'. split; [exact Hrun|]. split; [now rewrite Hr|assumption].
Defined.

End Orchestrator.

(* ===================================================================== *)
(** ** Claims on the cache key *)
(* ===================================================================== *)

Module CacheKey.
Import Zod ZodToBaml GenerateObject TranslateFacts Samples.

(** *** The digest on known inputs *)

Example sha256_empty :
  Sha256.sha256_hex ""
  = "e3b0c44298fc1c149afbf4c8996fb92427ae41e4649b934ca495991b7852b855".
Proof. vm_compute. reflexivity. Qed.

Example sha256_abc :
  Sha256.sha256_hex "abc"
  = "ba7816bf8f01cfea414140de5dae2223b00361a396177a9cb410ff61f20015ad".
Proof. vm_compute. reflexivity. Qed.

Example sha256_two_blocks :
  Sha256.sha256_hex
    "abcdbcdecdefdefgefghfghighijhijkijkljklmklmnlmnomnopnopq"
  = "248d6a61d20638b8e5c026930c3e6039a33ce45964ff2167f6ecedd419db06c1".
Proof. vm_compute. reflexivity. Qed.

(** *** A key is one of finitely many *)

Local Open Scope Z_scope.



Local Close Scope Z_scope.







(** *** Two runs on one schema *)





End CacheKey.

(* ===================================================================== *)
(** ** Further properties of the translator *)
(* ===================================================================== *)

Module CharFacts.
Import Zod ZodToBaml Growth.

Lemma all_chars_append (p : ascii -> bool) (a b : string) :
  all_chars p (a ++ b) = all_chars p a && all_chars p b.
Proof.
  induction a as [|c a IH]; cbn [append all_chars]; [reflexivity|].
  now rewrite IH, andb_assoc.
Qed.

Lemma all_chars_weaken (p q : ascii -> bool) (s : string) :
  (forall c, p c = true -> q c = true) ->
  all_chars p s = true -> all_chars q s = true.
Proof.
  intros Hpq. induction s as [|c s IH]; cbn [all_chars]; [reflexivity|].
  intros H. apply andb_prop in H as [Hc Hs]. now rewrite (Hpq c Hc), IH.
Qed.

Lemma all_chars_concat (p : ascii -> bool) (sep : string) (l : list string) :
  all_chars p sep = true ->
  Forall (fun w => all_chars p w = true) l ->
  all_chars p (String.concat sep l) = true.
Proof.
  intros Hsep. induction 1 as [|w l Hw Hl IH]; [reflexivity|].
  cbn [String.concat]. destruct l as [|w' l']; [exact Hw|].
  now rewrite !all_chars_append, Hw, Hsep, IH.
Qed.

Lemma to_upper_alnum (c : ascii) :
  Js.is_alnum c = true -> Js.is_alnum (Js.to_upper c) = true.
Proof.
  destruct c as [[] [] [] [] [] [] [] []]; vm_compute; intros H;
    first [reflexivity | discriminate H].
Qed.

Lemma alnum_printable_char (c : ascii) :
  Js.is_alnum c = true -> (32 <=? nat_of_ascii c)%nat = true.
Proof.
  destruct c as [[] [] [] [] [] [] [] []]; vm_compute; intros H;
    first [reflexivity | discriminate H].
Qed.



Lemma json_escape_printable (c : ascii) :
  printable (Js.json_escape c) = true.
Proof. destruct c as [[] [] [] [] [] [] [] []]; vm_compute; reflexivity. Qed.

Lemma alnum_printable (s : string) : alnum s = true -> printable s = true.
Proof. apply all_chars_weaken, alnum_printable_char. Qed.


(** [JSON.stringify] of a string has no control character. *)
Lemma json_string_printable (s : string) :
  printable (Js.json_string s) = true.
Proof.
  unfold Js.json_string, printable. rewrite !all_chars_append.
  assert (H : all_chars (fun c => (32 <=? nat_of_ascii c)%nat)
                        (Js.json_body s) = true).
  { induction s as [|c s IH]; [reflexivity|]. cbn [Js.json_body].
    rewrite all_chars_append, IH, andb_true_r.
    apply json_escape_printable. }
  now rewrite H.
Qed.

Lemma literal_union_printable (vs : list string) :
  printable (literal_union vs) = true.
Proof.
  unfold literal_union, Js.join, printable.
  apply all_chars_concat; [reflexivity|].
  induction vs as [|v vs IH]; constructor; [|exact IH].
  apply json_string_printable.
Qed.

(** *** [toPascal] *)

Lemma replace_non_alnum_chars (run : bool) (s : string) :
  all_chars (fun c => Js.is_alnum c || Ascii.eqb c " "%char)
            (replace_non_alnum run s) = true.
Proof.
  revert run. induction s as [|c s IH]; intros run; [reflexivity|].
  cbn [replace_non_alnum]. destruct (Js.is_alnum c) eqn:E.
  - cbn [all_chars]. now rewrite E, IH.
  - destruct run; [apply IH|]. cbn [all_chars]. rewrite IH.
    now rewrite orb_true_r.
Qed.

Lemma split_space_words (s : string) :
  all_chars (fun c => Js.is_alnum c || Ascii.eqb c " "%char) s = true ->
  Forall (fun w => alnum w = true) (split_space s).
Proof.
  induction s as [|c s IH]; cbn [all_chars split_space].
  - intros _. repeat constructor.
  - intros H. apply andb_prop in H as [Hc Hs]. specialize (IH Hs).
    destruct (Ascii.eqb c " "%char) eqn:E.
    + constructor; [reflexivity|exact IH].
    + rewrite orb_false_r in Hc.
      destruct (split_space s) as [|w ws]; constructor.
      * unfold alnum. cbn [all_chars]. now rewrite Hc.
      * constructor.
      * inversion IH; subst. unfold alnum in *. cbn [all_chars].
        now rewrite Hc.
      * now inversion IH.
Qed.

Lemma capitalize_alnum (w : string) :
  alnum w = true -> alnum (capitalize w) = true.
Proof.
  destruct w as [|c w]; [reflexivity|]. unfold alnum. cbn [capitalize all_chars].
  intros H. apply andb_prop in H as [Hc Hw].
  now rewrite (to_upper_alnum c Hc), Hw.
Qed.

(** A name made by [toPascal] has letters and digits only. *)
Lemma toPascal_alnum (s : string) : alnum (toPascal s) = true.
Proof.
  unfold toPascal, Js.join, alnum. apply all_chars_concat; [reflexivity|].
  pose proof (split_space_words _ (replace_non_alnum_chars false s)) as H.
  induction H as [|w ws Hw Hws IH]; cbn [filter map]; [constructor|].
  destruct (Js.truthy w); cbn [map]; [|exact IH].
  constructor; [|exact IH]. now apply capitalize_alnum.
Qed.

End CharFacts.

Module GrowthFacts.
Import Zod ZodToBaml ZodFacts TranslateFacts FreshFacts StringFacts.
Import Growth CharFacts.

Lemma of_nat_alnum (n : nat) : alnum (Js.of_nat n) = true.
Proof.
  unfold Js.of_nat. generalize (Nat.to_uint n). intros d.
  induction d; cbn; auto.
Qed.

Lemma fresh_loop_counter (taken : string -> bool) (clean : string)
    (rounds : nat) :
  forall name counter,
    counter <= snd (fresh_loop taken clean rounds name counter).
Proof.
  induction rounds as [|r IH]; intros name counter; cbn [fresh_loop];
    destruct (taken name); cbn [snd]; try lia.
  specialize (IH (clean ++ Js.of_nat (S counter)) (S counter)). lia.
Qed.

Lemma fresh_loop_alnum (taken : string -> bool) (clean : string)
    (rounds : nat) :
  alnum clean = true ->
  forall name counter,
    alnum name = true ->
    alnum (fst (fresh_loop taken clean rounds name counter)) = true.
Proof.
  intros Hc. induction rounds as [|r IH]; intros name counter Hn;
    cbn [fresh_loop]; destruct (taken name); cbn [fst]; try exact Hn.
  apply IH. unfold alnum. rewrite all_chars_append.
  fold (alnum clean). fold (alnum (Js.of_nat (S counter))).
  now rewrite Hc, of_nat_alnum.
Qed.

(** [uniqueClassName] returns an alphanumeric name and only raises the
    counter. *)
Lemma uniqueClassName_step (hint : string) (ctx : Ctx) :
  exists name c,
    uniqueClassName hint ctx = Ok (name, set_counter c ctx)
    /\ counter ctx <= c /\ alnum name = true.
Proof.
  unfold uniqueClassName.
  pose proof (fresh_loop_counter (fun n => JsMap.has n (types ctx))
                (toPascal hint) (length (types ctx)) (toPascal hint)
                (counter ctx)) as Hc.
  pose proof (fresh_loop_alnum (fun n => JsMap.has n (types ctx))
                (toPascal hint) (length (types ctx)) (toPascal_alnum hint)
                (toPascal hint) (counter ctx) (toPascal_alnum hint)) as Ha.
  destruct (fresh_loop _ _ _ _ _) as [name c]. exists name, c. auto.
Qed.

Lemma uniqueAliasOrEnumName_step (hint : string) (ctx : Ctx) :
  exists name c,
    uniqueAliasOrEnumName hint ctx = Ok (name, set_counter c ctx)
    /\ counter ctx <= c /\ alnum name = true
    /\ JsMap.has name (enums ctx) = false
    /\ JsMap.has name (aliases ctx) = false.
Proof.
  destruct (uniqueAliasOrEnumName_fresh hint ctx) as (name & c & Hu & He & Ha).
  exists name, c. split; [exact Hu|].
  unfold uniqueAliasOrEnumName in Hu.
  set (taken := fun n => JsMap.has n (enums ctx) || JsMap.has n (aliases ctx))
    in Hu.
  pose proof (fresh_loop_counter taken (toPascal hint)
                (length (enums ctx) + length (aliases ctx)) (toPascal hint)
                (counter ctx)) as Hc.
  pose proof (fresh_loop_alnum taken (toPascal hint)
                (length (enums ctx) + length (aliases ctx))
                (toPascal_alnum hint) (toPascal hint) (counter ctx)
                (toPascal_alnum hint)) as Hn.
  destruct (fresh_loop _ _ _ _ _) as [name' c'].
  injection Hu as <- <-. auto.
Qed.

Lemma printable_append (a b : string) :
  printable (a ++ b) = printable a && printable b.
Proof. apply all_chars_append. Qed.

Lemma parenIfUnion_printable (e : string) :
  printable e = true -> printable (parenIfUnion e) = true.
Proof.
  intros H. unfold parenIfUnion. destruct (Js.includes "|" e); [|exact H].
  now rewrite !printable_append, H.
Qed.

Lemma map_type_printable (k v : string) :
  printable k = true -> printable v = true ->
  printable ("map<" ++ k ++ ", " ++ v ++ ">") = true.
Proof. intros Hk Hv. now rewrite !printable_append, Hk, Hv. Qed.

(** *** Every successful call grows the context and returns a type
    expression without control character *)

Section Body.

Variable rec : ZodType -> option string -> M string.
Hypothesis rec_sound : sound rec.

Lemma object_fields_grows (name : string) (l : list (string * ZodType)) :
  forall ctx fs ctx',
    object_fields rec name l ctx = Ok (fs, ctx') ->
    grows ctx ctx'
    /\ Forall (fun f => printable (Field.type f) = true) fs.
Proof.
  induction l as [|[k c] l IH]; intros ctx fs ctx'; cbn [object_fields].
  - intros [= <- <-]. split; constructor.
  - unfold bind. generalize (unwrapModifiers c). intros u.
    destruct (rec _ _ ctx) as [[ty ctx1]|e] eqn:E1; [|discriminate].
    destruct (object_fields rec name l ctx1) as [[fs1 ctx2]|e] eqn:E2;
      [|discriminate].
    unfold ret. intros [= <- <-].
    destruct (rec_sound _ _ _ _ _ E1) as [G1 P1].
    destruct (IH _ _ _ E2) as [G2 P2].
    split; [exact (grows_trans _ _ _ G1 G2)|].
    constructor; [|exact P2]. cbn [Field.type].
    destruct (m_nullable u); [|exact P1].
    now rewrite printable_append, parenIfUnion_printable.
Qed.

Lemma union_parts_grows (hint : option string) (l : list ZodType) :
  forall i ctx ps ctx',
    union_parts rec hint i l ctx = Ok (ps, ctx') ->
    grows ctx ctx' /\ Forall (fun p => printable p = true) ps.
Proof.
  induction l as [|c l IH]; intros i ctx ps ctx'; cbn [union_parts].
  - intros [= <- <-]. split; constructor.
  - unfold bind.
    destruct (rec _ _ ctx) as [[ty ctx1]|e] eqn:E1; [|discriminate].
    destruct (union_parts rec hint (S i) l ctx1) as [[ps1 ctx2]|e] eqn:E2;
      [|discriminate].
    intros [= <- <-].
    destruct (rec_sound _ _ _ _ _ E1) as [G1 P1].
    destruct (IH _ _ _ _ E2) as [G2 P2].
    split; [exact (grows_trans _ _ _ G1 G2)|]. now constructor.
Qed.

Lemma toBamlType_body_sound : sound (toBamlType_body rec).
Proof.
  intros s h ctx r ctx'. unfold toBamlType_body.
  generalize (base (unwrapAll s)). intros b.
  destruct (getKind b =? "ZodObject").
  { unfold bind.
    destruct (uniqueClassName_step (hint_or h "Obj") ctx)
      as (name & c & -> & Hc & Hn).
    destruct (shape b) as [l|]; [|discriminate].
    destruct (object_fields rec name l _) as [[fs ctx2]|e] eqn:E;
      [|discriminate].
    unfold modify, ret. intros [= <- <-].
    destruct (object_fields_grows _ _ _ _ _ E) as [G P].
    split; [|now apply alnum_printable].
    eapply grows_trans; [apply grows_counter; exact Hc|].
    eapply grows_trans; [exact G|]. now apply grows_class. }
  destruct (getKind b =? "ZodString").
  { intros [= <- <-]. split; [constructor|reflexivity]. }
  destruct (getKind b =? "ZodNumber").
  { intros [= <- <-]. split; [constructor|].
    now destruct (existsb _ _). }
  destruct (getKind b =? "ZodBoolean").
  { intros [= <- <-]. split; [constructor|reflexivity]. }
  destruct (getKind b =? "ZodLiteral").
  { intros [= <- <-]. split; [constructor|].
    destruct (value b) as [| [] | | | |]; reflexivity. }
  destruct (getKind b =? "ZodNull").
  { intros [= <- <-]. split; [constructor|reflexivity]. }
  destruct (getKind b =? "ZodArray").
  { unfold bind.
    match goal with
    | |- context [match ?o with Some _ => _ | None => ret "string" end] =>
        destruct o as [c|]
    end.
    - destruct (rec _ _ ctx) as [[ty ctx1]|e] eqn:E; [|discriminate].
      intros [= <- <-]. destruct (rec_sound _ _ _ _ _ E) as [G P].
      split; [exact G|].
      now rewrite printable_append, parenIfUnion_printable.
    - intros [= <- <-]. split; [constructor|reflexivity]. }
  destruct (getKind b =? "ZodEnum").
  { destruct (enum_values b) as [|v vs] eqn:Ev.
    { intros [= <- <-]. split; [constructor|reflexivity]. }
    unfold bind.
    destruct (uniqueAliasOrEnumName_step (hint_or h "Enum") ctx)
      as (name & c & -> & Hc & Hn & He & Ha).
    destruct (forallb isIdentifier (v :: vs)) eqn:Eid;
      unfold modify, ret; intros [= <- <-];
      (split; [|now apply alnum_printable]);
      (eapply grows_trans; [apply grows_counter; exact Hc|]).
    - now apply grows_enum.
    - now apply grows_alias. }
  destruct (getKind b =? "ZodNativeEnum").
  { unfold bind.
    destruct (uniqueAliasOrEnumName_step (hint_or h "Enum") ctx)
      as (name & c & -> & Hc & Hn & He & Ha).
    destruct (forallb isIdentifier (native_enum_values b)) eqn:Eid;
      unfold modify, ret; intros [= <- <-];
      (split; [|now apply alnum_printable]);
      (eapply grows_trans; [apply grows_counter; exact Hc|]).
    - now apply grows_enum.
    - now apply grows_alias. }
  destruct (getKind b =? "ZodRecord").
  { unfold bind.
    destruct (rec _ _ ctx) as [[kt ctx1]|e] eqn:E1; [|discriminate].
    destruct (prop "valueType" b) as [c|]; [|discriminate].
    destruct (rec c _ ctx1) as [[v ctx2]|e] eqn:E2; [|discriminate].
    intros [= <- <-].
    destruct (rec_sound _ _ _ _ _ E1) as [G1 P1].
    destruct (rec_sound _ _ _ _ _ E2) as [G2 P2].
    split; [exact (grows_trans _ _ _ G1 G2)|].
    now apply map_type_printable. }
  destruct (getKind b =? "ZodUnion").
  { destruct (options b) as [l|]; [|discriminate]. unfold bind.
    destruct (union_parts rec h 0 l ctx) as [[ps ctx1]|e] eqn:E;
      [|discriminate].
    intros [= <- <-]. destruct (union_parts_grows _ _ _ _ _ _ E) as [G P].
    split; [exact G|].
    unfold Js.join, printable. now apply all_chars_concat. }
  destruct (getKind b =? "ZodLazy").
  { destruct (prop "getter" b) as [c|]; [|discriminate]. apply rec_sound. }
  match goal with
  | |- context [match ?o with Some _ => _ | None => throw _ end] =>
      destruct o as [c|]
  end; [|discriminate].
  apply rec_sound.
Qed.

End Body.

Lemma toBamlType_within_sound (d : nat) : sound (toBamlType_within d).
Proof.
  induction d as [|d IH]; [intros c h ctx r ctx' H; discriminate H|].
  cbn [toBamlType_within]. now apply toBamlType_body_sound.
Qed.

Lemma toBamlType_sound : sound toBamlType.
Proof. intros s. apply toBamlType_within_sound. Qed.

End GrowthFacts.

Module Invariants.
Import Zod ZodToBaml ZodFacts TranslateFacts FreshFacts StringFacts.
Import Growth CharFacts GrowthFacts Samples.

Lemma has_In {V} (n : string) (m : JsMap.t V) :
  In n (JsMap.keys m) -> JsMap.has n m = true.
Proof.
  unfold JsMap.has, JsMap.keys.
  induction m as [|[k v] m IH]; cbn [map JsMap.get fst]; [intros []|].
  destruct (String.eqb_spec n k) as [->|Hne]; [reflexivity|].
  intros [E|H]; [congruence|]. now apply IH.
Qed.

Lemma has_set {V} (n k : string) (v : V) (m : JsMap.t V) :
  JsMap.has n (JsMap.set k v m) = (n =? k) || JsMap.has n m.
Proof.
  unfold JsMap.has.
  induction m as [|[k' v'] m IH]; cbn [JsMap.set JsMap.get].
  - destruct (n =? k); reflexivity.
  - destruct (String.eqb_spec k k') as [->|Hne]; cbn [JsMap.get].
    + destruct (n =? k'); reflexivity.
    + destruct (String.eqb_spec n k') as [->|Hne'].
      * now rewrite orb_true_r.
      * exact IH.
Qed.

Lemma Forall_set {V} (P : string * V -> Prop) (k : string) (v : V)
    (m : JsMap.t V) :
  P (k, v) -> Forall P m -> Forall P (JsMap.set k v m).
Proof.
  intros Hkv. induction 1 as [|[k' v'] m Hx Hm IH]; cbn [JsMap.set].
  - repeat constructor. exact Hkv.
  - destruct (String.eqb_spec k k') as [->|Hne]; constructor; auto.
Qed.

Lemma keys_app {V} (a b : JsMap.t V) :
  JsMap.keys (a ++ b)%list = (JsMap.keys a ++ JsMap.keys b)%list.
Proof. apply map_app. Qed.

Lemma not_has_not_In {V} (n : string) (m : JsMap.t V) :
  JsMap.has n m = false -> ~ In n (JsMap.keys m).
Proof. intros H Hin. apply has_In in Hin. congruence. Qed.

(** *** The invariant *)

Lemma tidy_new : tidy new_ctx.
Proof. constructor; cbn; try constructor. intros n []. Qed.

Lemma grows_tidy (ctx ctx' : Ctx) : grows ctx ctx' -> tidy ctx -> tidy ctx'.
Proof.
  induction 1 as [ctx|a b c _ IH1 _ IH2|ctx c Hc|ctx name fields Hn Hf
                  |ctx name vs Hn He Ha Hid|ctx name vs Hn He Ha];
    intros Hctx; [exact Hctx|auto|destruct Hctx as [Ho Ht Hen Hal Hnd]..].
  - constructor; cbn [set_counter types order enums aliases]; assumption.
  - constructor; cbn [set_class types order enums aliases]; auto.
    + intros n Hin. rewrite has_set. apply in_app_or in Hin as [Hin|[<-|[]]].
      * rewrite (Ho n Hin). apply orb_true_r.
      * now rewrite String.eqb_refl.
    + apply Forall_set; [|exact Ht]. cbn. auto.
  - constructor; cbn [set_enum types order enums aliases]; auto.
    + rewrite (set_new _ _ _ He). apply Forall_app. split; [exact Hen|].
      repeat constructor; assumption.
    + rewrite (set_new _ _ _ He), keys_app. cbn [JsMap.keys map fst].
      rewrite <- app_assoc. cbn [List.app].
      apply (NoDup_Add (Add_app name _ _)). split; [exact Hnd|].
      intros Hin. apply in_app_or in Hin as [Hin|Hin];
        [now apply (not_has_not_In _ _ He)|now apply (not_has_not_In _ _ Ha)].
  - constructor; cbn [set_alias types order enums aliases]; auto.
    + rewrite (set_new _ _ _ Ha). apply Forall_app. split; [exact Hal|].
      repeat constructor; [exact Hn|apply literal_union_printable].
    + rewrite (set_new _ _ _ Ha), keys_app. cbn [JsMap.keys map fst].
      rewrite app_assoc.
      pose proof (Add_app name (JsMap.keys (enums ctx)
                                  ++ JsMap.keys (aliases ctx))%list [])
        as Hadd.
      rewrite app_nil_r in Hadd. apply (NoDup_Add Hadd).
      split; [exact Hnd|]. intros Hin. apply in_app_or in Hin as [Hin|Hin];
        [now apply (not_has_not_In _ _ He)|now apply (not_has_not_In _ _ Ha)].
Qed.

Lemma grows_appends (ctx ctx' : Ctx) :
  grows ctx ctx' ->
  counter ctx <= counter ctx'
  /\ (exists o, order ctx' = (order ctx ++ o)%list)
  /\ (exists e, enums ctx' = (enums ctx ++ e)%list)
  /\ (exists a, aliases ctx' = (aliases ctx ++ a)%list)
  /\ (forall n, JsMap.has n (types ctx) = true ->
                JsMap.has n (types ctx') = true).
Proof.
  induction 1 as [ctx|a b c _ IH1 _ IH2|ctx c Hc|ctx name fields Hn Hf
                  |ctx name vs Hn He Ha Hid|ctx name vs Hn He Ha].
  - split; [lia|]. repeat split; try (exists []; now rewrite app_nil_r).
    auto.
  - destruct IH1 as (C1 & [o1 O1] & [e1 E1] & [a1 A1] & T1).
    destruct IH2 as (C2 & [o2 O2] & [e2 E2] & [a2 A2] & T2).
    split; [lia|].
    split; [exists (o1 ++ o2)%list; now rewrite O2, O1, app_assoc|].
    split; [exists (e1 ++ e2)%list; now rewrite E2, E1, app_assoc|].
    split; [exists (a1 ++ a2)%list; now rewrite A2, A1, app_assoc|].
    auto.
  - cbn. split; [exact Hc|].
    repeat split; try (exists []; now rewrite app_nil_r). auto.
  - cbn. split; [lia|]. split; [now exists [name]|].
    split; [exists []; now rewrite app_nil_r|].
    split; [exists []; now rewrite app_nil_r|].
    intros n Hin. rewrite has_set, Hin. apply orb_true_r.
  - cbn. split; [lia|]. split; [exists []; now rewrite app_nil_r|].
    split; [exists [(name, vs)]; now apply set_new|].
    split; [exists []; now rewrite app_nil_r|]. auto.
  - cbn. split; [lia|]. split; [exists []; now rewrite app_nil_r|].
    split; [exists []; now rewrite app_nil_r|].
    split; [exists [(name, literal_union vs)]; now apply set_new|]. auto.
Qed.

End Invariants.

(* ===================================================================== *)
(** ** What the translator declares *)
(* ===================================================================== *)

Module Declarations.
Import Zod ZodToBaml ZodFacts TranslateFacts FreshFacts StringFacts.
Import Growth CharFacts GrowthFacts Invariants Lines Samples.

(** X1: translation keeps the context tidy.  After a successful call of
    [toBamlType] on a tidy context, every name of the order names a
    class, class, enum and alias names are alphanumeric, the values of
    every enum are identifiers, alias expressions and the types of
    fields hold no control character, and no name is declared twice
    among enums and aliases; the type expression returned holds no
    control character either. *)
Theorem translation_keeps_tidy (s : ZodType) (h : option string)
    (ctx ctx' : Ctx) (r : string) :
  tidy ctx ->
  toBamlType s h ctx = Ok (r, ctx') ->
  tidy ctx' /\ printable r = true.
Proof.
  intros Ht E. destruct (toBamlType_sound _ _ _ _ _ E) as [G P].
  split; [exact (grows_tidy _ _ G Ht)|exact P].
Qed.

Lemma translation_keeps_tidy_witness :
  tidy (mkCtx [("Root", ClassType.mk "Root" mixed_fields)] ["Root"] [] [] 0)
  /\ printable "Root" = true.
Proof.
  apply (translation_keeps_tidy mixed (Some "Root") new_ctx).
  - exact tidy_new.
  - vm_compute. reflexivity.
Defined.

(** X2: translation only adds to the context.  After a successful call
    of [toBamlType] the counter is not lower; the order, the enums and
    the aliases that were there are still there, in place and unchanged,
    with the new ones after them; and every class name that was declared
    still is. *)
Theorem declarations_append_only (s : ZodType) (h : option string)
    (ctx ctx' : Ctx) (r : string) :
  toBamlType s h ctx = Ok (r, ctx') ->
  counter ctx <= counter ctx'
  /\ (exists o, order ctx' = (order ctx ++ o)%list)
  /\ (exists e, enums ctx' = (enums ctx ++ e)%list)
  /\ (exists a, aliases ctx' = (aliases ctx ++ a)%list)
  /\ (forall n, JsMap.has n (types ctx) = true ->
                JsMap.has n (types ctx') = true).
Proof.
  intros E. apply grows_appends. exact (proj1 (toBamlType_sound _ _ _ _ _ E)).
Qed.

Lemma declarations_append_only_witness :
  counter new_ctx <= 0
  /\ (exists o, ["Root"] = (order new_ctx ++ o)%list)
  /\ (exists e, [] = (enums new_ctx ++ e)%list)
  /\ (exists a, [] = (aliases new_ctx ++ a)%list)
  /\ (forall n, JsMap.has n (types new_ctx) = true ->
                JsMap.has n [("Root", ClassType.mk "Root" mixed_fields)]
                = true).
Proof.
  apply (declarations_append_only mixed (Some "Root") new_ctx
           (mkCtx [("Root", ClassType.mk "Root" mixed_fields)] ["Root"]
                  [] [] 0) "Root").
  vm_compute. reflexivity.
Defined.

Lemma render_classes_ok (types : JsMap.t ClassType.t) (order : list string) :
  (forall n, In n order -> JsMap.has n types = true) ->
  exists lines,
    render_classes types order = Ok lines
    /\ forall l, In l lines ->
         exists n cls, In n order /\ JsMap.get n types = Some cls
                       /\ In l (render_class cls).
Proof.
  induction order as [|n order IH]; intros H.
  - exists []. split; [reflexivity|intros l []].
  - destruct IH as (lines & E & Hl); [intros m Hm; apply H; now right|].
    pose proof (H n (or_introl eq_refl)) as Hn. unfold JsMap.has in Hn.
    cbn [render_classes]. destruct (JsMap.get n types) as [cls|] eqn:G;
      [|discriminate].
    rewrite E. exists (render_class cls ++ lines)%list. split; [reflexivity|].
    intros l Hin. apply in_app_or in Hin as [Hin|Hin].
    + exists n, cls. split; [now left|]. split; assumption.
    + destruct (Hl l Hin) as (m & c & Hm & Gm & Hc).
      exists m, c. split; [now right|]. split; assumption.
Qed.

(** X3: [buildBamlFromZod] fails exactly when the translation of the
    schema under the hint [Root] in a new context fails, and then with
    the same error: rendering never fails, since every name of the
    order has its class.  When the translation returns, the function of
    the file is named [GenRoot], its return type is the type expression
    of the translation, and the file is the header, the declarations
    and the function joined by line breaks. *)
Theorem build_fails_only_in_translation (s : ZodType) :
  match toBamlType s (Some "Root") new_ctx with
  | Throw e => buildBamlFromZod s = Throw e
  | Ok (r, ctx) =>
      exists types,
        renderTypes ctx = Ok types
        /\ buildBamlFromZod s
           = Ok (mkBaml (Js.join Js.nl [header; types; func "GenRoot" r])
                        "GenRoot" r)
  end.
Proof.
  unfold buildBamlFromZod, buildBamlFromZod_with.
  destruct (toBamlType s (Some "Root") new_ctx) as [[r ctx]|e] eqn:E;
    [|reflexivity].
  pose proof (grows_tidy _ _ (proj1 (toBamlType_sound _ _ _ _ _ E)) tidy_new)
    as Ht.
  destruct (render_classes_ok (types ctx) (order ctx) (tidy_order _ Ht))
    as (lines & R & _).
  unfold renderTypes. rewrite R. eexists. split; reflexivity.
Qed.









End Declarations.

(* ===================================================================== *)
(** ** Modifiers and the object rule *)
(* ===================================================================== *)

Module Modifiers.
Import Zod ZodToBaml ZodFacts TranslateFacts FreshFacts StringFacts.
Import Chain Flags ObjectRule Growth CharFacts GrowthFacts Invariants Samples.

Lemma unwrap_loop_flags (s : ZodType) :
  is_wrapper (getKind s) = false ->
  forall n ws o nu,
    unwrap_loop n (wrap_all ws s) o nu
    = mkUnwrapped (wrap_all (skipn n ws) s)
                  (o || existsb is_optional (firstn n ws))
                  (nu || existsb is_nullable (firstn n ws)).
Proof.
  intros Hs. induction n as [|n IH]; intros ws o nu.
  - cbn [unwrap_loop skipn firstn existsb]. now rewrite !orb_false_r.
  - destruct ws as [|w ws].
    + cbn [skipn firstn existsb wrap_all fold_right].
      rewrite !orb_false_r. now apply unwrap_loop_stop.
    + cbn [skipn firstn existsb].
      destruct w; cbn -[unwrap_loop]; cbn [unwrap_loop]; cbn -[unwrap_loop];
        (etransitivity; [apply IH|]); cbn [orb];
        rewrite ?orb_true_r; reflexivity.
Qed.

(** X5: what [unwrapAll] finds on a chain of wrappers.  On a schema
    that is not a wrapper under any chain of modifier wrappers, the
    fifty outermost wrappers are peeled and the rest is the base; the
    schema is optional exactly when one of those fifty is an Optional
    wrapper and nullable exactly when one of them is a Nullable
    wrapper, wherever it stands among them (under a Default wrapper,
    for instance). *)
Theorem unwrapAll_flags (s : ZodType) (ws : list wrapper) :
  is_wrapper (getKind s) = false ->
  unwrapAll (wrap_all ws s)
  = mkUnwrapped (wrap_all (skipn 50 ws) s)
                (existsb is_optional (firstn 50 ws))
                (existsb is_nullable (firstn 50 ws)).
Proof. intros Hs. unfold unwrapAll. now rewrite unwrap_loop_flags. Qed.

Lemma unwrapAll_flags_witness :
  unwrapAll (wrap_all [Default; Optional; Effects; Nullable] z.string_)
  = mkUnwrapped
      (wrap_all (skipn 50 [Default; Optional; Effects; Nullable]) z.string_)
      (existsb is_optional (firstn 50 [Default; Optional; Effects; Nullable]))
      (existsb is_nullable (firstn 50 [Default; Optional; Effects; Nullable])).
Proof. apply (unwrapAll_flags z.string_). reflexivity. Defined.

Lemma unwrapModifiers_eq (c : ZodType) :
  unwrapModifiers c
  = mkModifiers (base (unwrapAll c)) (optional (unwrapAll c))
                (nullable (unwrapAll c)) (Zod.description c).
Proof. reflexivity. Qed.


Lemma toBamlType_object (s : ZodType) (l : list (string * ZodType))
    (h : option string) (ctx : Ctx) :
  getKind s = "ZodObject" ->
  shape s = Some l ->
  toBamlType s h ctx
  = bind (uniqueClassName (hint_or h "Obj"))
         (fun name =>
            bind (object_fields toBamlType name l)
                 (fun fields =>
                    bind (modify (set_class name (ClassType.mk name fields)))
                         (fun _ => ret name))) ctx.
Proof.
  intros Hk Hs. rewrite (toBamlType_eq s). unfold toBamlType_body.
  rewrite (unwrapAll_stop s) by (unfold is_wrapper; rewrite Hk; reflexivity).
  cbn [base]. rewrite Hk. cbn [String.eqb Ascii.eqb Bool.eqb].
  rewrite Hs. reflexivity.
Qed.



Lemma replace_no_alnum (k : string) :
  no_alnum k = true -> replace_non_alnum true k = "".
Proof.
  unfold no_alnum. induction k as [|c k IH]; [reflexivity|].
  cbn [all_chars replace_non_alnum]. intros H.
  apply andb_prop in H as [Hc Hk].
  destruct (Js.is_alnum c); [discriminate Hc|]. now apply IH.
Qed.

Lemma toPascal_root_key (k : string) :
  no_alnum k = true -> toPascal ("Root" ++ "_" ++ k) = "Root".
Proof.
  intros Hk. unfold toPascal. cbn [append replace_non_alnum].
  change (Js.is_alnum "R") with true. change (Js.is_alnum "o") with true.
  change (Js.is_alnum "t") with true. change (Js.is_alnum "_") with false.
  cbn iota. rewrite (replace_no_alnum k Hk). reflexivity.
Qed.

Lemma set_present_keys {V} (k : string) (v : V) (m : JsMap.t V) :
  JsMap.has k m = true -> JsMap.keys (JsMap.set k v m) = JsMap.keys m.
Proof.
  unfold JsMap.has, JsMap.keys.
  induction m as [|[q x] m IH]; cbn [JsMap.get JsMap.set]; [discriminate|].
  destruct (k =? q); cbn [map fst]; [reflexivity|].
  intros H. f_equal. now apply IH.
Qed.

Lemma uniqueClassName_new (hint : string) :
  uniqueClassName hint new_ctx = Ok (toPascal hint, new_ctx).
Proof. reflexivity. Qed.

(** X17: a key without letter or digit gives the child the name of its
    parent.  For the root object [{ k: z.object(fs) }] with a key [k]
    that holds no letter and no digit (such as [_] or [$]), the class
    of the field is named [Root] like the class of the root, since
    [toPascal] drops the key; the root then takes the place of the
    class of the field in the types, with a field [k] of type [Root],
    and [Root] stands twice at the end of the order, so that it is
    rendered twice. *)
Theorem nameless_key_takes_parent_name (k : string)
    (fs : list (string * ZodType)) (r1 : string) (ctx1 : Ctx) :
  no_alnum k = true ->
  toBamlType (z.object fs) (Some ("Root" ++ "_" ++ k)) new_ctx
  = Ok (r1, ctx1) ->
  r1 = "Root"
  /\ exists ctx',
       toBamlType (z.object [(k, z.object fs)]) (Some "Root") new_ctx
       = Ok ("Root", ctx')
       /\ JsMap.get "Root" (types ctx')
          = Some (ClassType.mk "Root" [Field.mk k "Root" false None])
       /\ JsMap.keys (types ctx') = JsMap.keys (types ctx1)
       /\ exists o, order ctx1 = (o ++ ["Root"])%list
                    /\ order ctx' = (o ++ ["Root"; "Root"])%list.
Proof.
  intros Hk Hin.
  pose proof Hin as Hin'.
  rewrite (toBamlType_object (z.object fs) fs _ new_ctx eq_refl eq_refl)
    in Hin'.
  unfold bind in Hin'.
  assert (Hh : hint_or (Some ("Root" ++ "_" ++ k)) "Obj" = "Root" ++ "_" ++ k)
    by reflexivity.
  rewrite Hh, uniqueClassName_new, (toPascal_root_key k Hk) in Hin'.
  destruct (object_fields toBamlType "Root" fs new_ctx)
    as [[fields c1]|e] eqn:Ef; [|discriminate Hin'].
  unfold modify, ret in Hin'. injection Hin' as <- <-.
  split; [reflexivity|].
  exists (set_class "Root" (ClassType.mk "Root" [Field.mk k "Root" false None])
                    (set_class "Root" (ClassType.mk "Root" fields) c1)).
  split.
  - rewrite (toBamlType_object (z.object [(k, z.object fs)])
               [(k, z.object fs)] _ new_ctx eq_refl eq_refl).
    unfold bind at 1.
    assert (Hr : hint_or (Some "Root") "Obj" = "Root") by reflexivity.
    rewrite Hr, uniqueClassName_new.
    change (toPascal "Root") with "Root". cbn iota.
    unfold bind at 1. cbn [object_fields]. unfold bind at 1.
    rewrite unwrapModifiers_eq.
    rewrite (unwrapAll_stop (z.object fs)) by reflexivity.
    cbn [m_base m_optional m_nullable m_description base optional nullable].
    rewrite Hin. reflexivity.
  - cbn [set_class types order]. split; [apply get_set_same|].
    split.
    + apply set_present_keys. rewrite has_set. reflexivity.
    + exists (order c1). split; [reflexivity|]. now rewrite <- app_assoc.
Qed.

Lemma nameless_key_takes_parent_name_witness :
  "Root" = "Root"
  /\ exists ctx',
       toBamlType (z.object [("_", z.object [("x", z.string_)])])
                  (Some "Root") new_ctx
       = Ok ("Root", ctx')
       /\ JsMap.get "Root" (types ctx')
          = Some (ClassType.mk "Root" [Field.mk "_" "Root" false None])
       /\ JsMap.keys (types ctx')
          = JsMap.keys
              (types (mkCtx [("Root", ClassType.mk "Root"
                                        [Field.mk "x" "string" false None])]
                            ["Root"] [] [] 0))
       /\ exists o,
            order (mkCtx [("Root", ClassType.mk "Root"
                                     [Field.mk "x" "string" false None])]
                         ["Root"] [] [] 0)
            = (o ++ ["Root"])%list
            /\ order ctx' = (o ++ ["Root"; "Root"])%list.
Proof.
  apply (nameless_key_takes_parent_name "_" [("x", z.string_)]).
  - reflexivity.
  - vm_compute. reflexivity.
Defined.

End Modifiers.

(* ===================================================================== *)
(** ** Schemas the translator accepts *)
(* ===================================================================== *)

Module Accepts.
Import Zod ZodToBaml ZodFacts TranslateFacts FreshFacts StringFacts.
Import Support Modifiers Samples.









Section Loops.

Variable rec : ZodType -> option string -> M string.



End Loops.










End Accepts.

(* ===================================================================== *)
(** ** Schemas the hint builder accepts *)
(* ===================================================================== *)

Module Describes.
Import Zod ZodToBaml JsonHint ZodFacts TranslateFacts HintFacts.
Import Support Accepts Samples.

Section Loops.

Variable rec : ZodType -> result jsstring.



End Loops.







Ltac described := eexists; reflexivity.




End Describes.

(* ===================================================================== *)
(** ** Every run of the orchestrator *)
(* ===================================================================== *)

Module Runs.
Import Zod ZodToBaml JsonHint GenerateObject Samples.
Import FreshFacts Orchestrator Footprint.

Lemma sleeps_failed (k : nat) (req : Request) (w : World) :
  sleeps (failed k req w) = (sleeps w ++ delays k)%list.
Proof.
  unfold delays. induction k as [|k IH]; cbn [failed].
  - cbn. now rewrite app_nil_r.
  - cbn [sleep send sleeps]. rewrite IH, seq_S, map_app, <- app_assoc.
    cbn [map Nat.add]. now rewrite Nat.add_1_r.
Qed.

Lemma files_failed (k : nat) (req : Request) (w : World) :
  files (failed k req w) = files w.
Proof. induction k as [|k IH]; [reflexivity|exact IH]. Qed.

Lemma requests_answered (k : nat) (req : Request) (w : World) :
  requests (send req (failed k req w))
  = (requests w ++ repeat req (S k))%list.
Proof.
  cbn [send requests]. rewrite requests_failed, <- app_assoc.
  f_equal. cbn [repeat]. symmetry. apply repeat_cons.
Qed.

Lemma requests_prepared (env : Env) (b : Baml) (w : World) :
  requests (prepared env b w) = requests w.
Proof. reflexivity. Qed.

Lemma sleeps_prepared (env : Env) (b : Baml) (w : World) :
  sleeps (prepared env b w) = sleeps w.
Proof. reflexivity. Qed.

Lemma parsed_prepared (env : Env) (b : Baml) (w : World) :
  parsed (prepared env b w) = parsed w.
Proof. reflexivity. Qed.

Lemma files_prepared (env : Env) (b : Baml) (w : World) :
  files (prepared env b w)
  = JsMap.set (schema_path env b) (bamlFile b) (files w).
Proof. reflexivity. Qed.

Lemma build_funcName (s : ZodType) (b : Baml) :
  buildBamlFromZod s = Ok b -> funcName b = "GenRoot".
Proof.
  unfold buildBamlFromZod, buildBamlFromZod_with.
  destruct (toBamlType s (Some "Root") new_ctx) as [[r ctx]|e];
    [|discriminate].
  destruct (renderTypes ctx) as [t|e]; [|discriminate].
  intros [= <-]. reflexivity.
Qed.

(** The retry loop ends with an answer to one of the three requests, or
    with the error of the third. *)
Lemma attempt_outcome (env : Env) (req : Request) (w : World) :
  (exists k r,
     k < attempts
     /\ generateText env (length (requests w) + k) req = Ok r
     /\ attempt env attempts 0 req w = (Ok (Some r), send req (failed k req w)))
  \/ (exists e,
        generateText env (length (requests w) + 2) req = Throw e
        /\ attempt env attempts 0 req w
           = (Throw e, send req (failed 2 req w))).
Proof.
  unfold attempts.
  destruct (generateText env (length (requests w) + 0) req) as [r|e1] eqn:E0.
  { left. exists 0, r. split; [lia|]. split; [exact E0|].
    apply (attempt_answer env req r (fun _ => Error "") 0 w);
      [unfold attempts; lia|intros j Hj; lia|exact E0]. }
  destruct (generateText env (length (requests w) + 1) req) as [r|e2] eqn:E1.
  { left. exists 1, r. split; [lia|]. split; [exact E1|].
    apply (attempt_answer env req r (fun _ => e1) 1 w);
      [unfold attempts; lia| |exact E1].
    intros j Hj. assert (j = 0) as -> by lia. exact E0. }
  destruct (generateText env (length (requests w) + 2) req) as [r|e3] eqn:E2.
  { left. exists 2, r. split; [lia|]. split; [exact E2|].
    apply (attempt_answer env req r
             (fun j => match j with 0 => e1 | _ => e2 end) 2 w);
      [unfold attempts; lia| |exact E2].
    intros j Hj. destruct j as [|[|j]]; [exact E0|exact E1|lia]. }
  right. exists e3. split; [reflexivity|].
  apply (attempt_exhausted env req e1 e2 e3 w).
  - now rewrite Nat.add_0_r in E0.
  - now rewrite Nat.add_1_r in E1.
  - replace (S (S (length (requests w)))) with (length (requests w) + 2)
      by lia. exact E2.
Qed.

(** The statements after the loop: the empty text is refused, a missing
    parser is a type error, and otherwise the parser is called once. *)
Lemma finish_outcome (client : Client) (f : string) (r : TextResult)
    (w : World) :
  let t := Js.or_else (text r ?? output_text r) "" in
  (t = ""
   /\ finish client f (Some r) w
      = (Throw (Error "generateText returned empty text"), w))
  \/ (t <> "" /\ parse client f = None
      /\ finish client f (Some r) w
         = (Throw (TypeError "client.parse[funcName] is not a function"), w))
  \/ (t <> ""
      /\ exists p,
           parse client f = Some p
           /\ finish client f (Some r) w
              = (match p t with
                 | Ok object =>
                     Ok (mkResult object t (usage r) (finishReason r))
                 | Throw e => Throw e
                 end, parsing f t w)).
Proof.
  intros t. unfold finish. fold t.
  destruct t as [|c t'] eqn:Et; cbn [Js.truthy negb].
  - left. split; reflexivity.
  - right. destruct (parse client f) as [p|].
    + right. split; [discriminate|]. exists p. split; [reflexivity|].
      destruct (p (String c t')); reflexivity.
    + left. split; [discriminate|]. split; reflexivity.
Qed.

(** How far a run gets: it stops before anything is written, or after
    the source text is written and before any request, or it reaches
    the retry loop. *)
Lemma run_cases (env : Env) (opts : Options) (w : World) :
  (exists e, generateObjectCompat env opts w = (Throw e, w))
  \/ (exists s b e,
        schema opts = Some s /\ buildBamlFromZod s = Ok b
        /\ generateObjectCompat env opts w = (Throw e, prepared env b w))
  \/ (exists s b client hint,
        schema opts = Some s /\ buildBamlFromZod s = Ok b
        /\ buildAndLoadBamlClient env (workspace env b) = Ok client
        /\ buildJsonHint s = Ok hint
        /\ generateObjectCompat env opts w
           = io_bind (attempt env attempts 0 (request opts hint))
                     (finish client (funcName b)) (prepared env b w)).
Proof.
  destruct (schema opts) as [s|] eqn:Hs.
  2: { left. eexists. unfold generateObjectCompat. rewrite Hs. reflexivity. }
  destruct (buildBamlFromZod s) as [b|e] eqn:Hb.
  2: { left. exists e. unfold generateObjectCompat. rewrite Hs.
       unfold io_bind at 1. unfold lift at 1. rewrite Hb. reflexivity. }
  right.
  destruct (buildAndLoadBamlClient env (workspace env b)) as [client|e]
    eqn:Hc.
  2: { left. exists s, b, e. split; [reflexivity|]. split; [exact Hb|].
       unfold generateObjectCompat. rewrite Hs.
       unfold io_bind at 1. unfold lift at 1. rewrite Hb.
       unfold io_bind at 1. unfold prepareWorkspace at 1.
       unfold io_bind at 1. unfold lift at 1.
       fold (workspace env b). rewrite Hc. reflexivity. }
  destruct (buildJsonHint s) as [hint|e] eqn:Hh.
  2: { left. exists s, b, e. split; [reflexivity|]. split; [exact Hb|].
       unfold generateObjectCompat. rewrite Hs.
       unfold io_bind at 1. unfold lift at 1. rewrite Hb.
       unfold io_bind at 1. unfold prepareWorkspace at 1.
       unfold io_bind at 1. unfold lift at 1.
       fold (workspace env b). rewrite Hc.
       unfold io_bind at 1. unfold lift at 1. rewrite Hh. reflexivity. }
  right. exists s, b, client, hint.
  split; [reflexivity|]. split; [exact Hb|]. split; [exact Hc|].
  split; [exact Hh|].
  exact (run_eq env opts s b client hint Hs Hb Hc Hh w).
Qed.

(** X9: what any run leaves behind.  Whatever the options and the
    collaborators do, a run of [generateObjectCompat] sends the same
    request at most three times, awaits before the second request 250
    ms and before the third 500 ms and nothing else, and hands at most
    one text to the parser, a non-empty one, under the name [GenRoot]
    and only after a request was sent. *)
Theorem run_footprint (env : Env) (opts : Options) (w : World) :
  let w' := snd (generateObjectCompat env opts w) in
  exists k req,
    k <= 3
    /\ requests w' = (requests w ++ repeat req k)%list
    /\ sleeps w' = (sleeps w ++ delays (k - 1))%list
    /\ (parsed w' = parsed w
        \/ (1 <= k
            /\ exists t, t <> ""
                 /\ parsed w' = (parsed w ++ [("GenRoot", t)])%list)).
Proof.
  intros w'. subst w'.
  destruct (run_cases env opts w)
    as [[e ->]|[(s & b & e & _ & _ & ->)
               |(s & b & client & hint & _ & Hb & _ & _ & ->)]].
  - exists 0, (request opts ""). cbn [snd repeat delays Nat.sub seq map].
    rewrite !app_nil_r. split; [lia|]. auto.
  - exists 0, (request opts ""). cbn [snd repeat delays Nat.sub seq map].
    rewrite !app_nil_r. split; [lia|]. auto.
  - rewrite (build_funcName s b Hb). unfold io_bind.
    set (req := request opts hint). set (w1 := prepared env b w).
    destruct (attempt_outcome env req w1)
      as [(k & r & Hk & _ & ->)|(e & _ & ->)].
    + exists (S k), req. unfold attempts in Hk. split; [lia|].
      replace (S k - 1) with k by lia.
      destruct (finish_outcome client "GenRoot" r (send req (failed k req w1)))
        as [[_ ->]|[(_ & _ & ->)|(Ht & p & _ & ->)]]; cbn [snd].
      * rewrite requests_answered. cbn [send sleeps parsed].
        rewrite sleeps_failed, parsed_failed. auto.
      * rewrite requests_answered. cbn [send sleeps parsed].
        rewrite sleeps_failed, parsed_failed. auto.
      * cbn [parsing requests sleeps parsed]. rewrite requests_answered.
        cbn [send sleeps parsed]. rewrite sleeps_failed, parsed_failed.
        split; [reflexivity|]. split; [reflexivity|]. right.
        split; [lia|]. eexists. split; [exact Ht|reflexivity].
    + exists 3, req. cbn [snd]. split; [lia|]. rewrite requests_answered.
      cbn [send sleeps parsed Nat.sub]. rewrite sleeps_failed, parsed_failed.
      auto.
Qed.

(** X10: what a run that returns has done.  When [generateObjectCompat]
    returns a result, the schema was given and translated, the client
    was loaded for the workspace of the rendered text and the hint was
    built; one of the three requests was answered; the text of the
    result is the [text] of that answer, or its [output_text] when
    [text] is absent, and is not empty; the object is what the parser
    [GenRoot] of the client made of that text, in its only call; usage
    and finish reason are those of the answer; and the file of the
    workspace holds the rendered text. *)
Theorem run_returned (env : Env) (opts : Options) (w w' : World)
    (res : GenerateObjectCompatResult) :
  generateObjectCompat env opts w = (Ok res, w') ->
  exists s b client hint k r p,
    schema opts = Some s
    /\ buildBamlFromZod s = Ok b
    /\ buildAndLoadBamlClient env (workspace env b) = Ok client
    /\ buildJsonHint s = Ok hint
    /\ k < 3
    /\ generateText env (length (requests w) + k) (request opts hint) = Ok r
    /\ res_text res = Js.or_else (text r ?? output_text r) ""
    /\ res_text res <> ""
    /\ parse client "GenRoot" = Some p
    /\ p (res_text res) = Ok (res_object res)
    /\ res_usage res = usage r
    /\ res_finishReason res = finishReason r
    /\ requests w' = (requests w ++ repeat (request opts hint) (S k))%list
    /\ parsed w' = (parsed w ++ [("GenRoot", res_text res)])%list
    /\ JsMap.get (schema_path env b) (files w') = Some (bamlFile b).
Proof.
  intros H.
  destruct (run_cases env opts w)
    as [[e E]|[(s & b & e & _ & _ & E)
              |(s & b & client & hint & Hs & Hb & Hc & Hh & E)]];
    rewrite E in H; try discriminate H.
  rewrite (build_funcName s b Hb) in H. unfold io_bind in H.
  set (req := request opts hint) in *. set (w1 := prepared env b w) in *.
  destruct (attempt_outcome env req w1)
    as [(k & r & Hk & Hgen & Ha)|(e & _ & Ha)];
    rewrite Ha in H; [|discriminate H].
  destruct (finish_outcome client "GenRoot" r (send req (failed k req w1)))
    as [[_ F]|[(_ & _ & F)|(Ht & p & Hp & F)]];
    rewrite F in H; try discriminate H.
  destruct (p (Js.or_else (text r ?? output_text r) "")) as [o|e] eqn:Ho;
    [|discriminate H].
  injection H as <- <-.
  exists s, b, client, hint, k, r, p. cbn [res_text res_object res_usage
                                          res_finishReason].
  split; [exact Hs|]. split; [exact Hb|]. split; [exact Hc|].
  split; [exact Hh|]. split; [exact Hk|].
  split; [unfold w1 in Hgen; rewrite requests_prepared in Hgen; exact Hgen|].
  split; [reflexivity|]. split; [exact Ht|]. split; [exact Hp|].
  split; [exact Ho|]. split; [reflexivity|]. split; [reflexivity|].
  cbn [parsing requests parsed files].
  split; [rewrite requests_answered; unfold w1;
          now rewrite requests_prepared|].
  split; [cbn [send parsed]; rewrite parsed_failed; unfold w1;
          now rewrite parsed_prepared|].
  cbn [send files]. rewrite files_failed. unfold w1.
  rewrite files_prepared. apply get_set_same.
Qed.

Lemma run_returned_witness :
  exists s b client hint k r p,
    schema fruit_opts = Some s
    /\ buildBamlFromZod s = Ok b
    /\ buildAndLoadBamlClient obliging (workspace obliging b) = Ok client
    /\ buildJsonHint s = Ok hint
    /\ k < 3
    /\ generateText obliging (length (requests new_world) + k)
                    (request fruit_opts hint) = Ok r
    /\ res_text fruit_result = Js.or_else (text r ?? output_text r) ""
    /\ res_text fruit_result <> ""
    /\ parse client "GenRoot" = Some p
    /\ p (res_text fruit_result) = Ok (res_object fruit_result)
    /\ res_usage fruit_result = usage r
    /\ res_finishReason fruit_result = finishReason r
    /\ requests fruit_world
       = (requests new_world ++ repeat (request fruit_opts hint) (S k))%list
    /\ parsed fruit_world
       = (parsed new_world ++ [("GenRoot", res_text fruit_result)])%list
    /\ JsMap.get (schema_path obliging b) (files fruit_world)
       = Some (bamlFile b).
Proof.
  apply (run_returned obliging fruit_opts new_world fruit_world fruit_result).
  vm_compute. reflexivity.
Defined.

End Runs.

(* ===================================================================== *)
(** ** The cache of workspaces *)
(* ===================================================================== *)

Module Workspaces.
Import ZodToBaml GenerateObject Samples.
Import StringFacts FreshFacts Cache.

Lemma append_inj_r (a b s : string) : a ++ s = b ++ s -> a = b.
Proof.
  revert b. induction a as [|c a IH]; intros [|d b] H; cbn in H.
  - reflexivity.
  - apply (f_equal String.length) in H. cbn in H.
    rewrite length_append in H. lia.
  - apply (f_equal String.length) in H. cbn in H.
    rewrite length_append in H. lia.
  - injection H as -> H. f_equal. now apply IH.
Qed.

Lemma text_path_inj (tmp k1 k2 : string) :
  text_path tmp k1 = text_path tmp k2 -> k1 = k2.
Proof.
  unfold text_path, resolve. intros H.
  apply append_inj_r in H. apply append_inj_r in H.
  apply append_inj in H. now apply append_inj in H.
Qed.

Lemma get_set_other {V} (k k' : string) (v : V) (m : JsMap.t V) :
  k <> k' -> JsMap.get k (JsMap.set k' v m) = JsMap.get k m.
Proof.
  intros Hne. induction m as [|[q x] m IH]; cbn [JsMap.set JsMap.get].
  - destruct (String.eqb_spec k k'); [contradiction|reflexivity].
  - destruct (String.eqb_spec k' q) as [->|Hq]; cbn [JsMap.get].
    + destruct (String.eqb_spec k q); [contradiction|reflexivity].
    + destruct (String.eqb_spec k q); [reflexivity|exact IH].
Qed.

Lemma set_set {V} (k : string) (v : V) (m : JsMap.t V) :
  JsMap.set k v (JsMap.set k v m) = JsMap.set k v m.
Proof.
  induction m as [|[q x] m IH]; cbn [JsMap.set].
  - now rewrite String.eqb_refl.
  - destruct (String.eqb_spec k q) as [->|Hq]; cbn [JsMap.set].
    + now rewrite String.eqb_refl.
    + destruct (String.eqb_spec k q); [contradiction|]. now rewrite IH.
Qed.

(** X11: the workspace of a text holds that text, and the cache stays
    consistent.  [prepareWorkspace], called with the key of a text as
    [generateObjectCompat] calls it, returns the directory named by the
    key under [baml-runtime-cache] of the temporary directory; after it
    the source file of that directory holds the text, every other file
    is as it was, and if every workspace that held a source text held
    one of its own key before, this is still so. *)
Theorem workspace_holds_its_text (tmp text : string) (w : World) :
  consistent tmp w ->
  let run := prepareWorkspace tmp (cacheKey text) text w in
  fst run = Ok (resolve (resolve tmp "baml-runtime-cache") (cacheKey text))
  /\ JsMap.get (text_path tmp (cacheKey text)) (files (snd run)) = Some text
  /\ (forall p, p <> text_path tmp (cacheKey text) ->
        JsMap.get p (files (snd run)) = JsMap.get p (files w))
  /\ consistent tmp (snd run).
Proof.
  intros Hw run. subst run. unfold prepareWorkspace. cbn [fst snd files].
  fold (text_path tmp (cacheKey text)).
  split; [reflexivity|]. split; [apply get_set_same|].
  split; [intros p Hp; now apply get_set_other|].
  unfold consistent. cbn [files]. intros t found.
  destruct (String.eqb_spec (text_path tmp (cacheKey t))
                            (text_path tmp (cacheKey text))) as [E|Hne].
  - rewrite E, get_set_same. intros [= <-]. symmetry.
    exact (text_path_inj _ _ _ E).
  - rewrite (get_set_other _ _ _ _ Hne). apply Hw.
Qed.

Lemma workspace_holds_its_text_witness :
  let run := prepareWorkspace "/tmp" (cacheKey "class A {}") "class A {}"
                              new_world in
  fst run
  = Ok (resolve (resolve "/tmp" "baml-runtime-cache") (cacheKey "class A {}"))
  /\ JsMap.get (text_path "/tmp" (cacheKey "class A {}")) (files (snd run))
     = Some "class A {}"
  /\ (forall p, p <> text_path "/tmp" (cacheKey "class A {}") ->
        JsMap.get p (files (snd run)) = JsMap.get p (files new_world))
  /\ consistent "/tmp" (snd run).
Proof.
  apply (workspace_holds_its_text "/tmp" "class A {}" new_world).
  intros t found H. discriminate H.
Defined.

(** X12: preparing a workspace again changes nothing.  A second call
    of [prepareWorkspace] with the same key and the same text returns
    the same directory and leaves the files and the directories as the
    first call left them. *)
Theorem prepare_again (tmp key text : string) (w : World) :
  let once := prepareWorkspace tmp key text w in
  prepareWorkspace tmp key text (snd once) = once.
Proof.
  intros once. subst once. unfold prepareWorkspace. cbn [snd files dirs
    requests sleeps parsed].
  set (srcDir := resolve (resolve (resolve tmp "baml-runtime-cache") key)
                         "baml_src").
  rewrite set_set. f_equal. f_equal.
  destruct (existsb (String.eqb srcDir) (dirs w)) eqn:E.
  - now rewrite E.
  - rewrite existsb_app, E. cbn [existsb orb].
    now rewrite String.eqb_refl.
Qed.

Lemma hex_digit_is_hex (n : nat) : n < 16 -> is_hex (Js.hex_digit n) = true.
Proof.
  intros H. do 16 (destruct n as [|n]; [reflexivity|]). lia.
Qed.

Lemma hex_format (n : nat) :
  forall x : Z,
    String.length (Sha256.hex n x) = n
    /\ all_chars is_hex (Sha256.hex n x) = true.
Proof.
  induction n as [|n IH]; intros x; [split; reflexivity|].
  cbn [Sha256.hex]. destruct (IH (x / 16)%Z) as [Hl Hc].
  split.
  - rewrite length_append, Hl. cbn. lia.
  - rewrite CharFacts.all_chars_append, Hc. cbn [all_chars andb].
    rewrite hex_digit_is_hex; [reflexivity|].
    pose proof (Z.mod_pos_bound x 16 ltac:(lia)). lia.
Qed.

(** X13: a cache key is a directory name.  Whatever the text, its key
    is made of exactly 64 characters, each a digit or a letter from [a]
    to [f]: it holds no separator and no dot, so the directory of the
    workspace lies right under [baml-runtime-cache]. *)
Theorem cacheKey_format (text : string) :
  String.length (cacheKey text) = 64
  /\ all_chars is_hex (cacheKey text) = true.
Proof. unfold cacheKey, Sha256.sha256_hex. apply hex_format. Qed.

End Workspaces.

(* ===================================================================== *)
(** ** The filter on the standard error of the child *)
(* ===================================================================== *)

Module Filter.
Import Exec StringFacts.

Lemma split_lines_nonempty (s : string) : split_lines s <> [].
Proof.
  destruct s as [|c r]; cbn [split_lines]; [discriminate|].
  destruct (is_nl c); [discriminate|].
  destruct r as [|d r'].
  - cbn. discriminate.
  - destruct (is_cr c && is_nl d); [discriminate|].
    destruct (split_lines (String d r')); discriminate.
Qed.

Lemma last_app_nonempty {A} (x y : list A) (d : A) :
  y <> [] -> last (x ++ y) d = last y d.
Proof.
  intros Hy. induction x as [|a x IH]; [reflexivity|].
  cbn [List.app]. cbn [last].
  destruct (x ++ y)%list eqn:E; [|exact IH].
  apply app_eq_nil in E as [_ ->]. contradiction.
Qed.

(** A string of one line is that line. *)
Lemma split_lines_single (n : nat) :
  forall s w, String.length s <= n -> split_lines s = [w] -> w = s.
Proof.
  induction n as [|n IH]; intros s w Hn; destruct s as [|c r];
    cbn [split_lines]; try (intros [= <-]; reflexivity);
    cbn [String.length] in Hn; try lia.
  destruct (is_nl c).
  { intros H. pose proof (split_lines_nonempty r).
    destruct (split_lines r); [contradiction|discriminate]. }
  destruct r as [|d r'].
  { cbn. intros [= <-]. reflexivity. }
  destruct (is_cr c && is_nl d).
  { intros H. pose proof (split_lines_nonempty r').
    destruct (split_lines r'); [contradiction|discriminate]. }
  pose proof (split_lines_nonempty (String d r')) as Hne.
  destruct (split_lines (String d r')) as [|w1 ws] eqn:E; [contradiction|].
  cbn [cons_char]. intros [= <- ->]. f_equal.
  apply (IH (String d r') w1); [lia|exact E].
Qed.

(** The lines of a text in two parts: those finished in the first
    part, and then those of the rest of the first part followed by the
    second. *)
Lemma split_lines_app (n : nat) :
  forall a b, String.length a <= n ->
    split_lines (a ++ b)
    = (removelast (split_lines a)
         ++ split_lines (last (split_lines a) "" ++ b))%list.
Proof.
  induction n as [|n IH]; intros a b Hn; destruct a as [|c r];
    try reflexivity; cbn [String.length] in Hn; try lia.
  cbn [append split_lines].
  destruct (is_nl c) eqn:Hc.
  { rewrite (IH r b) by lia.
    pose proof (split_lines_nonempty r) as Hne.
    destruct (split_lines r) as [|x xs]; [contradiction|]. reflexivity. }
  destruct r as [|d r'].
  { cbn [append split_lines cons_char removelast last List.app].
    rewrite Hc. reflexivity. }
  cbn [append]. destruct (is_cr c && is_nl d) eqn:Hcd.
  { rewrite (IH r' b) by (cbn [String.length] in Hn; lia).
    pose proof (split_lines_nonempty r') as Hne.
    destruct (split_lines r') as [|x xs]; [contradiction|]. reflexivity. }
  change (String d (r' ++ b)) with (String d r' ++ b).
  rewrite (IH (String d r') b) by lia.
  pose proof (split_lines_nonempty (String d r')) as Hne.
  destruct (split_lines (String d r')) as [|w ws] eqn:E; [contradiction|].
  destruct ws as [|x xs].
  - cbn [removelast last List.app cons_char].
    pose proof (split_lines_single _ _ _ (Nat.le_refl _) E) as ->.
    cbn [append split_lines]. rewrite Hc, Hcd.
    change (String d (r' ++ b)) with (String d r' ++ b). reflexivity.
  - cbn [removelast last List.app cons_char]. reflexivity.
Qed.

Lemma emit_app (x y : list string) : emit (x ++ y) = (emit x ++ emit y)%list.
Proof. unfold emit. now rewrite filter_app, map_app. Qed.

Lemma append_empty_r (s : string) : s ++ "" = s.
Proof. induction s as [|a s IH]; [reflexivity|]. cbn. now rewrite IH. Qed.

Lemma on_data_state (t chunk : string) :
  on_data (state_after t) chunk = state_after (t ++ chunk).
Proof.
  unfold on_data, state_after. cbn [stderrBuf written].
  rewrite (split_lines_app _ t chunk (Nat.le_refl _)).
  set (y := split_lines (last (split_lines t) "" ++ chunk)).
  assert (Hy : y <> []) by apply split_lines_nonempty.
  rewrite (last_app_nonempty _ _ _ Hy), (removelast_app _ Hy).
  now rewrite emit_app.
Qed.

Lemma fold_on_data (chunks : list string) :
  forall t,
    fold_left on_data chunks (state_after t)
    = state_after (t ++ String.concat "" chunks).
Proof.
  induction chunks as [|c chunks IH]; intros t.
  - cbn [fold_left String.concat]. now rewrite append_empty_r.
  - cbn [fold_left]. rewrite on_data_state, IH. f_equal.
    rewrite append_assoc. f_equal.
    destruct chunks; [|reflexivity]. cbn. now rewrite append_empty_r.
Qed.

(** X14: what the filter writes does not depend on the chunks.  The
    strings written to the standard error for the chunks of a run are
    those written when the same text comes in one chunk: a line is
    dealt with when its line feed has come, also when the carriage
    return before it came in the chunk before. *)
Theorem chunks_do_not_matter (chunks : list string) :
  stderr_of chunks = stderr_of [String.concat "" chunks].
Proof.
  unfold stderr_of. change start with (state_after "").
  rewrite !fold_on_data. cbn [String.concat]. reflexivity.
Qed.

(** X15: what the filter writes, by the text received.  Each write is
    a finished line of the text with a line feed after it (a carriage
    return and line feed at the end of a line becomes a line feed), in
    the order of the text, and at the end the unfinished last line as
    it is, if it is not empty; a line is left out exactly when it holds
    [/@boundaryml%2fbaml-], in whatever case. *)
Theorem stderr_of_text (chunks : list string) :
  let lines := split_lines (String.concat "" chunks) in
  let rest := last lines "" in
  stderr_of chunks
  = List.app
      (map (fun line => line ++ Js.nl)
           (filter (fun line => negb (NOISY_NPM_404 line)) (removelast lines)))
      (if Js.truthy rest && negb (NOISY_NPM_404 rest) then [rest] else []).
Proof.
  intros lines rest. unfold stderr_of. change start with (state_after "").
  rewrite fold_on_data. cbn [append]. unfold on_close, state_after.
  cbn [stderrBuf written]. fold lines. fold rest. unfold emit.
  destruct (Js.truthy rest && negb (NOISY_NPM_404 rest));
    [reflexivity|now rewrite app_nil_r].
Qed.

End Filter.

(* ===================================================================== *)
(** ** Looking for a binary in the directories above *)
(* ===================================================================== *)

Module FindBinFacts.
Import FindBin.

Lemma parent_length (dir : Path) :
  dir <> [] -> S (length (parent dir)) = length dir.
Proof.
  intros H. unfold parent.
  pose proof (app_removelast_last "" H) as E.
  apply (f_equal (@length string)) in E. rewrite length_app in E.
  cbn [length] in E. lia.
Qed.

Lemma parent_fixed (dir : Path) : parent dir = dir -> dir = [].
Proof.
  intros H. destruct dir as [|a dir]; [reflexivity|].
  pose proof (parent_length (a :: dir) ltac:(discriminate)) as E.
  rewrite H in E. lia.
Qed.

Lemma ancestor_S (k : nat) (dir : Path) :
  ancestor (S k) dir = ancestor k (parent dir).
Proof. unfold ancestor. now rewrite Nat.iter_succ_r. Qed.

Lemma findBinUp_loop_nearest (existsSync : Path -> bool) (binName : string)
    (n : nat) :
  forall dir,
    match findBinUp_loop existsSync n dir binName with
    | Some found =>
        exists k,
          k < n /\ k <= length dir
          /\ found = candidate (ancestor k dir) binName
          /\ existsSync found = true
          /\ forall j, j < k ->
               existsSync (candidate (ancestor j dir) binName) = false
    | None =>
        forall k, k < n -> k <= length dir ->
          existsSync (candidate (ancestor k dir) binName) = false
    end.
Proof.
  induction n as [|n IH]; intros dir; cbn [findBinUp_loop].
  - intros k Hk. lia.
  - destruct (existsSync (candidate dir binName)) eqn:E.
    + exists 0. split; [lia|]. split; [lia|]. split; [reflexivity|].
      split; [exact E|]. intros j Hj. lia.
    + destruct (list_eq_dec string_dec (parent dir) dir) as [Hroot|Hup].
      * apply parent_fixed in Hroot. subst dir. intros k _ Hk.
        cbn [length] in Hk. assert (k = 0) as -> by lia. exact E.
      * assert (Hne : dir <> []) by (intros ->; now apply Hup).
        pose proof (parent_length dir Hne) as Hlen.
        specialize (IH (parent dir)).
        destruct (findBinUp_loop existsSync n (parent dir) binName)
          as [found|].
        -- destruct IH as (k & Hk & Hkl & -> & Hex & Hnear).
           exists (S k). split; [lia|]. split; [lia|].
           split; [now rewrite ancestor_S|]. split; [exact Hex|].
           intros [|j] Hj; [exact E|]. rewrite ancestor_S. apply Hnear. lia.
        -- intros [|k] Hk Hkl; [exact E|]. rewrite ancestor_S.
           apply IH; lia.
Qed.

(** X16: [findBinUp] finds the nearest binary within eight levels.
    What it returns is [node_modules/.bin/<name>] of the start
    directory or of one of the seven directories above it, one that
    exists, and the nearest such one; it returns [null] exactly when
    none of these exists, also when one further up does. *)
Theorem findBinUp_nearest (existsSync : Path -> bool) (startDir : Path)
    (binName : string) :
  match findBinUp existsSync startDir binName with
  | Some found =>
      exists k,
        k < 8 /\ k <= length startDir
        /\ found = candidate (ancestor k startDir) binName
        /\ existsSync found = true
        /\ forall j, j < k ->
             existsSync (candidate (ancestor j startDir) binName) = false
  | None =>
      forall k, k < 8 -> k <= length startDir ->
        existsSync (candidate (ancestor k startDir) binName) = false
  end.
Proof. apply findBinUp_loop_nearest. Qed.

End FindBinFacts.
